(** * PeakMeter: the level-metering aggregator of libs/ardour/meter.cc

    A shallow embedding of [ARDOUR::PeakMeter] (libs/ardour/meter.cc) and the
    properties of its capture ([run]), reduction ([meter]), query
    ([meter_level]), type selection ([set_type]) and reconfiguration
    ([configure_io], [reset_max_channels], [reflect_inputs]) operations.

    Conventions of the embedding.
    - A C++ [float] is a value of [float] below: NaN, the two infinities, or
      a rational number.  Comparisons follow IEEE 754 (every comparison with
      NaN is false); arithmetic on numbers is exact, so rounding is not
      modelled.
    - A [std::vector] is a [list]; [operator[]] out of range and [pop_back]
      on an empty vector are undefined behaviour in C++, and make the
      operation return [None] here.  Every operation on the meter therefore
      has type [PeakMeter -> option PeakMeter].
    - [uint32_t]/[size_t] channel counts are [nat].
    - Collaborators whose code is not part of meter.cc (the dB conversion,
      [sqrt], the four ballistics DSP classes, the base class's
      [configure_io]) are parameters of the development, given as type
      classes. *)

From Stdlib Require Import QArith Qabs Lqa ZArith Bool.
From stdpp Require Import base tactics option list.

Local Open Scope nat_scope.

(* ===================================================================== *)
(** ** Floating-point values *)
(* ===================================================================== *)

Inductive float : Type :=
  | NaN : float
  | Inf (negative : bool) : float
  | Num (q : Q) : float.

Definition fzero : float := Num 0.
Definition fone : float := Num 1.

(** [minus_infinity()] of ardour/dB.h, which meter.cc uses interchangeably
    with [-std::numeric_limits<float>::infinity()]. *)
Definition minus_infinity : float := Inf true.

Definition is_nan (a : float) : bool :=
  match a with NaN => true | _ => false end.

(** IEEE comparison: [None] when either side is NaN (unordered). *)
Definition fcompare (a b : float) : option comparison :=
  match a, b with
  | NaN, _ | _, NaN => None
  | Inf true, Inf true | Inf false, Inf false => Some Eq
  | Inf true, _ => Some Lt
  | Inf false, _ => Some Gt
  | Num _, Inf s => Some (if s then Gt else Lt)
  | Num p, Num q => Some (p ?= q)%Q
  end.

(** [a < b], [a <= b], [a == b] as C++ evaluates them. *)
Definition flt (a b : float) : bool :=
  match fcompare a b with Some Lt => true | _ => false end.
Definition fle (a b : float) : bool :=
  match fcompare a b with Some Lt | Some Eq => true | _ => false end.
Definition feq (a b : float) : bool :=
  match fcompare a b with Some Eq => true | _ => false end.
(** [a > b] is [b < a]. *)
Definition fgt (a b : float) : bool := flt b a.

(** [std::max (a, b)]: [(a < b) ? b : a]. *)
Definition fmax (a b : float) : float := if flt a b then b else a.

Definition fopp (a : float) : float :=
  match a with
  | NaN => NaN
  | Inf s => Inf (negb s)
  | Num q => Num (- q)
  end.

Definition Qneg (q : Q) : bool := negb (Qle_bool 0 q).

Definition fadd (a b : float) : float :=
  match a, b with
  | NaN, _ | _, NaN => NaN
  | Inf s, Inf t => if Bool.eqb s t then Inf s else NaN
  | Inf s, Num _ => Inf s
  | Num _, Inf t => Inf t
  | Num p, Num q => Num (p + q)
  end.

Definition fsub (a b : float) : float := fadd a (fopp b).

Definition fmul (a b : float) : float :=
  match a, b with
  | NaN, _ | _, NaN => NaN
  | Inf s, Inf t => Inf (xorb s t)
  | Inf s, Num q | Num q, Inf s =>
      if Qeq_bool q 0 then NaN else Inf (xorb s (Qneg q))
  | Num p, Num q => Num (p * q)
  end.

Definition fdiv (a b : float) : float :=
  match a, b with
  | NaN, _ | _, NaN => NaN
  | Inf _, Inf _ => NaN
  | Inf s, Num q => Inf (xorb s (Qneg q))
  | Num _, Inf _ => Num 0
  | Num p, Num q =>
      if Qeq_bool q 0
      then (if Qeq_bool p 0 then NaN else Inf (Qneg p))
      else Num (p / q)
  end.

(** [fabsf]. *)
Definition fabs (a : float) : float :=
  match a with
  | NaN => NaN
  | Inf _ => Inf false
  | Num q => Num (Qabs q)
  end.

Definition float_of_nat (n : nat) : float := Num (inject_Z (Z.of_nat n)).
Definition float_of_Z (z : Z) : float := Num (inject_Z z).

(* ===================================================================== *)
(** ** Vectors and loops *)
(* ===================================================================== *)

(** [v[i]] as an rvalue: undefined out of range. *)
Definition vec_get {A} (v : list A) (i : nat) : option A := v !! i.

(** [v[i] = x]: undefined out of range. *)
Definition vec_set {A} (v : list A) (i : nat) (x : A) : option (list A) :=
  if decide (i < length v) then Some (<[i:=x]> v) else None.

(** [v.pop_back()]: undefined on an empty vector. *)
Definition pop_back {A} (v : list A) : option (list A) :=
  match v with
  | [] => None
  | _ => Some (removelast v)
  end.

(** [v.push_back(x)]. *)
Definition push_back {A} (v : list A) (x : A) : list A := v ++ [x].

(** [for (i = lo; i < lo + count; ++i) body(i)], threading the state and
    stopping at the first undefined step. *)
Fixpoint for_range {S} (lo count : nat) (body : nat → S → option S) (s : S)
  : option S :=
  match count with
  | O => Some s
  | Datatypes.S c => s' ← body lo s; for_range (Datatypes.S lo) c body s'
  end.

(** A loop whose body ignores the counter, run [count] times. *)
Definition repeat_n {S} (count : nat) (body : S → option S) (s : S)
  : option S :=
  for_range 0 count (λ _, body) s.

(* ===================================================================== *)
(** ** Data model *)
(* ===================================================================== *)

(** Modelled from the spec: [ARDOUR::MeterType] (declared in ardour/types.h,
    which is not part of the sources).  A bit mask with one bit for every
    standard and derived view.  The theorems on [set_type], [run] and
    [meter] hold for every mask and only test the family bits. *)
Definition MeterType := Z.

Definition MeterMaxSignal : MeterType := 0x001%Z.
Definition MeterMaxPeak   : MeterType := 0x002%Z.
Definition MeterPeak      : MeterType := 0x004%Z.
Definition MeterKrms      : MeterType := 0x008%Z.
Definition MeterK20       : MeterType := 0x010%Z.
Definition MeterK14       : MeterType := 0x020%Z.
Definition MeterIEC1DIN   : MeterType := 0x040%Z.
Definition MeterIEC1NOR   : MeterType := 0x080%Z.
Definition MeterIEC2BBC   : MeterType := 0x100%Z.
Definition MeterIEC2EBU   : MeterType := 0x200%Z.
Definition MeterVU        : MeterType := 0x400%Z.
Definition MeterK12       : MeterType := 0x800%Z.

(** [t & bits], read as a C++ condition. *)
Definition has_bits (t bits : MeterType) : bool :=
  negb (Z.land t bits =? 0)%Z.

(** The four masks [run] and [set_type] test. *)
Definition K_bits : MeterType :=
  Z.lor (Z.lor (Z.lor MeterKrms MeterK20) MeterK14) MeterK12.
Definition IEC1_bits : MeterType := Z.lor MeterIEC1DIN MeterIEC1NOR.
Definition IEC2_bits : MeterType := Z.lor MeterIEC2BBC MeterIEC2EBU.
Definition VU_bits : MeterType := MeterVU.
(** The mask [meter] tests to pick the K-meter falloff. *)
Definition K_falloff_bits : MeterType :=
  Z.lor (Z.lor MeterK20 MeterK14) MeterK12.

(** Modelled from the spec: [ARDOUR::ChanCount] (ardour/chan_count.h is not
    part of the sources).  A count of MIDI channels followed by audio
    channels; the total is their sum, and two counts are equal when both
    components are. *)
Record ChanCount : Type := mkChanCount { n_midi : nat; n_audio : nat }.

Definition n_total (c : ChanCount) : nat := n_midi c + n_audio c.

Global Instance ChanCount_eq_dec : EqDecision ChanCount.
Proof. solve_decision. Defined.

(** A MIDI event as [run] reads it: whether it is a note-on, and the byte
    [buffer()[2]] (a [uint8_t]), which is the velocity of a note-on. *)
Record MIDIEvent : Type := mkMIDIEvent {
  is_note_on : bool;
  buffer_2 : Z
}.

Record MidiBuffer : Type := mkMidiBuffer {
  events : list MIDIEvent;
  capacity : nat
}.

Record AudioBuffer : Type := mkAudioBuffer {
  silent : bool;
  data : list float
}.

(** [bufs.count()] is the length of the two lists. *)
Record BufferSet : Type := mkBufferSet {
  midi_bufs : list MidiBuffer;
  audio_bufs : list AudioBuffer
}.

(** The capability [PeakMeter] needs of a ballistics DSP class
    ([Kmeterdsp], [Iec1ppmdsp], [Iec2ppmdsp], [Vumeterdsp]): the state of a
    freshly constructed unit, [process], [read] and [reset]. *)
Class Ballistics (U : Type) : Type := {
  dsp_new : U;
  dsp_process : U → list float → nat → U;
  dsp_read : U → float;
  dsp_reset : U → U
}.

(** The functions meter.cc calls and does not define:
    [accurate_coefficient_to_dB] of ardour/dB.h, [sqrt] of the C library,
    and [Processor::configure_io], the base class's part of [configure_io],
    of which only the verdict matters here. *)
Class Collaborators : Type := {
  accurate_coefficient_to_dB : float → float;
  sqrtf : float → float;
  Processor_configure_io : ChanCount → ChanCount → bool
}.

(** The signals the meter emits. *)
Inductive Signal : Type :=
  | ConfigurationChanged (i o : ChanCount)
  | TypeChanged (t : MeterType).

(** Modelled from the spec: [compute_peak] (ardour/runtime_functions.h, a
    function pointer whose implementations are not part of the sources).
    Per the spec the new raw value is the maximum of the current value and
    the peak absolute sample of the block. *)
Definition peak_abs (buf : list float) (nframes : nat) : float :=
  fold_left (λ m x, fmax m (fabs x)) (take nframes buf) fzero.

Definition compute_peak (buf : list float) (nframes : nat) (current : float)
  : float :=
  fmax current (peak_abs buf nframes).

(** [v[i]->method()] on a vector of owned objects: the object at [i] is
    replaced by its state after the call; undefined out of range. *)
Definition vec_update {A} (v : list A) (i : nat) (f : A → A)
  : option (list A) :=
  x ← vec_get v i; vec_set v i (f x).

(** [assert (b)]: a failed assertion does not return. *)
Definition assert {S} (b : bool) (s : S) : option S :=
  if b then Some s else None.

(* ===================================================================== *)
(** ** The meter *)
(* ===================================================================== *)

Section PeakMeter.

Context {Kmeterdsp Iec1ppmdsp Iec2ppmdsp Vumeterdsp : Type}.
Context `{!Ballistics Kmeterdsp, !Ballistics Iec1ppmdsp,
          !Ballistics Iec2ppmdsp, !Ballistics Vumeterdsp}.

Context `{!Collaborators}.

(** The fields of [PeakMeter] (and the two activity flags it inherits from
    [Processor]); [emitted] records the signals emitted so far, latest
    first. *)
Record PeakMeter : Type := mkPeakMeter {
  _active : bool;
  _pending_active : bool;
  _meter_type : MeterType;
  current_meters : ChanCount;
  _peak_signal : list float;
  _visible_peak_power : list float;
  _max_peak_signal : list float;
  _max_peak_power : list float;
  _kmeter : list Kmeterdsp;
  _iec1meter : list Iec1ppmdsp;
  _iec2meter : list Iec2ppmdsp;
  _vumeter : list Vumeterdsp;
  emitted : list Signal
}.

Definition set_active (b : bool) (s : PeakMeter) : PeakMeter :=
  mkPeakMeter b (_pending_active s) (_meter_type s) (current_meters s)
    (_peak_signal s) (_visible_peak_power s) (_max_peak_signal s)
    (_max_peak_power s) (_kmeter s) (_iec1meter s) (_iec2meter s)
    (_vumeter s) (emitted s).

Definition set_meter_type (t : MeterType) (s : PeakMeter) : PeakMeter :=
  mkPeakMeter (_active s) (_pending_active s) t (current_meters s)
    (_peak_signal s) (_visible_peak_power s) (_max_peak_signal s)
    (_max_peak_power s) (_kmeter s) (_iec1meter s) (_iec2meter s)
    (_vumeter s) (emitted s).

Definition set_current_meters (c : ChanCount) (s : PeakMeter) : PeakMeter :=
  mkPeakMeter (_active s) (_pending_active s) (_meter_type s) c
    (_peak_signal s) (_visible_peak_power s) (_max_peak_signal s)
    (_max_peak_power s) (_kmeter s) (_iec1meter s) (_iec2meter s)
    (_vumeter s) (emitted s).

Definition set_peak_signal (v : list float) (s : PeakMeter) : PeakMeter :=
  mkPeakMeter (_active s) (_pending_active s) (_meter_type s)
    (current_meters s) v (_visible_peak_power s) (_max_peak_signal s)
    (_max_peak_power s) (_kmeter s) (_iec1meter s) (_iec2meter s)
    (_vumeter s) (emitted s).

Definition set_visible_peak_power (v : list float) (s : PeakMeter)
  : PeakMeter :=
  mkPeakMeter (_active s) (_pending_active s) (_meter_type s)
    (current_meters s) (_peak_signal s) v (_max_peak_signal s)
    (_max_peak_power s) (_kmeter s) (_iec1meter s) (_iec2meter s)
    (_vumeter s) (emitted s).

Definition set_max_peak_signal (v : list float) (s : PeakMeter)
  : PeakMeter :=
  mkPeakMeter (_active s) (_pending_active s) (_meter_type s)
    (current_meters s) (_peak_signal s) (_visible_peak_power s) v
    (_max_peak_power s) (_kmeter s) (_iec1meter s) (_iec2meter s)
    (_vumeter s) (emitted s).

Definition set_max_peak_power (v : list float) (s : PeakMeter)
  : PeakMeter :=
  mkPeakMeter (_active s) (_pending_active s) (_meter_type s)
    (current_meters s) (_peak_signal s) (_visible_peak_power s)
    (_max_peak_signal s) v (_kmeter s) (_iec1meter s) (_iec2meter s)
    (_vumeter s) (emitted s).

Definition set_kmeter (v : list Kmeterdsp) (s : PeakMeter) : PeakMeter :=
  mkPeakMeter (_active s) (_pending_active s) (_meter_type s)
    (current_meters s) (_peak_signal s) (_visible_peak_power s)
    (_max_peak_signal s) (_max_peak_power s) v (_iec1meter s)
    (_iec2meter s) (_vumeter s) (emitted s).

Definition set_iec1meter (v : list Iec1ppmdsp) (s : PeakMeter)
  : PeakMeter :=
  mkPeakMeter (_active s) (_pending_active s) (_meter_type s)
    (current_meters s) (_peak_signal s) (_visible_peak_power s)
    (_max_peak_signal s) (_max_peak_power s) (_kmeter s) v
    (_iec2meter s) (_vumeter s) (emitted s).

Definition set_iec2meter (v : list Iec2ppmdsp) (s : PeakMeter)
  : PeakMeter :=
  mkPeakMeter (_active s) (_pending_active s) (_meter_type s)
    (current_meters s) (_peak_signal s) (_visible_peak_power s)
    (_max_peak_signal s) (_max_peak_power s) (_kmeter s) (_iec1meter s)
    v (_vumeter s) (emitted s).

Definition set_vumeter (v : list Vumeterdsp) (s : PeakMeter) : PeakMeter :=
  mkPeakMeter (_active s) (_pending_active s) (_meter_type s)
    (current_meters s) (_peak_signal s) (_visible_peak_power s)
    (_max_peak_signal s) (_max_peak_power s) (_kmeter s) (_iec1meter s)
    (_iec2meter s) v (emitted s).

(** [Sig (...); /* EMIT SIGNAL */]. *)
Definition emit (e : Signal) (s : PeakMeter) : PeakMeter :=
  mkPeakMeter (_active s) (_pending_active s) (_meter_type s)
    (current_meters s) (_peak_signal s) (_visible_peak_power s)
    (_max_peak_signal s) (_max_peak_power s) (_kmeter s) (_iec1meter s)
    (_iec2meter s) (_vumeter s) (e :: emitted s).

(** Assignments to one slot of a per-channel vector, and calls on one
    ballistics unit. *)
Definition peak_signal_at (n : nat) (x : float) (s : PeakMeter)
  : option PeakMeter :=
  v ← vec_set (_peak_signal s) n x; Some (set_peak_signal v s).
Definition visible_peak_power_at (n : nat) (x : float) (s : PeakMeter)
  : option PeakMeter :=
  v ← vec_set (_visible_peak_power s) n x; Some (set_visible_peak_power v s).
Definition max_peak_signal_at (n : nat) (x : float) (s : PeakMeter)
  : option PeakMeter :=
  v ← vec_set (_max_peak_signal s) n x; Some (set_max_peak_signal v s).
Definition max_peak_power_at (n : nat) (x : float) (s : PeakMeter)
  : option PeakMeter :=
  v ← vec_set (_max_peak_power s) n x; Some (set_max_peak_power v s).

Definition kmeter_at (n : nat) (f : Kmeterdsp → Kmeterdsp) (s : PeakMeter)
  : option PeakMeter :=
  v ← vec_update (_kmeter s) n f; Some (set_kmeter v s).
Definition iec1meter_at (n : nat) (f : Iec1ppmdsp → Iec1ppmdsp)
  (s : PeakMeter) : option PeakMeter :=
  v ← vec_update (_iec1meter s) n f; Some (set_iec1meter v s).
Definition iec2meter_at (n : nat) (f : Iec2ppmdsp → Iec2ppmdsp)
  (s : PeakMeter) : option PeakMeter :=
  v ← vec_update (_iec2meter s) n f; Some (set_iec2meter v s).
Definition vumeter_at (n : nat) (f : Vumeterdsp → Vumeterdsp)
  (s : PeakMeter) : option PeakMeter :=
  v ← vec_update (_vumeter s) n f; Some (set_vumeter v s).

(** [if (c) body], an [if] without [else]. *)
Definition when (c : bool) (body : PeakMeter → option PeakMeter)
  (s : PeakMeter) : option PeakMeter :=
  if c then body s else Some s.

(** The constructor: no channels, [_pending_active = true],
    [_meter_type = MeterPeak].  [_active] is initialised by [Processor]'s
    constructor, whose value is left open. *)
Definition PeakMeter_new (active0 : bool) : PeakMeter :=
  mkPeakMeter active0 true MeterPeak (mkChanCount 0 0)
    [] [] [] [] [] [] [] [] [].

(** The body of the loops of the destructor and of the shrinking loop of
    [reset_max_channels]: [delete] and [pop_back] the last unit of all four
    families. *)
Definition pop_units (s : PeakMeter) : option PeakMeter :=
  k ← pop_back (_kmeter s);
  i1 ← pop_back (_iec1meter s);
  i2 ← pop_back (_iec2meter s);
  vu ← pop_back (_vumeter s);
  Some (set_vumeter vu (set_iec2meter i2 (set_iec1meter i1 (set_kmeter k s)))).

(** [PeakMeter::~PeakMeter]: the loop runs once per element of [_kmeter]. *)
Definition destroy (s : PeakMeter) : option PeakMeter :=
  repeat_n (length (_kmeter s)) pop_units s.

(** *** Capture: [PeakMeter::run] *)

(** One step of the scan of a MIDI buffer: [val] after the event [ev]. *)
Definition midi_event (capacity : nat) (val : float) (ev : MIDIEvent)
  : float :=
  if is_note_on ev then
    let this_vel := fdiv (float_of_Z (buffer_2 ev)) (Num 127) in
    if fgt this_vel val then this_vel else val
  else
    let val := fadd val (fdiv fone (float_of_nat capacity)) in
    if fgt val fone then fone else val.

(** [val] after the scan of the whole buffer, starting from [0.0f]. *)
Definition midi_val (buf : MidiBuffer) : float :=
  fold_left (midi_event (capacity buf)) (events buf) fzero.

(** The body of the MIDI loop; the slot [n] equals the counter [i]. *)
Definition run_midi (bufs : BufferSet) (i : nat) (s : PeakMeter)
  : option PeakMeter :=
  let n := i in
  buf ← vec_get (midi_bufs bufs) i;
  old ← vec_get (_peak_signal s) n;
  peak_signal_at n (fmax (midi_val buf) old) s.

(** The body of the audio loop; the slot is [n = n_midi + i], where
    [n_midi] is the number of MIDI channels metered by this call. *)
Definition run_audio (bufs : BufferSet) (nframes n_midi : nat) (i : nat)
  (s : PeakMeter) : option PeakMeter :=
  let n := n_midi + i in
  buf ← vec_get (audio_bufs bufs) i;
  s ← (if silent buf then peak_signal_at n fzero s
       else old ← vec_get (_peak_signal s) n;
            peak_signal_at n (compute_peak (data buf) nframes old) s);
  s ← when (has_bits (_meter_type s) K_bits)
        (kmeter_at i (λ u, dsp_process u (data buf) nframes)) s;
  s ← when (has_bits (_meter_type s) IEC1_bits)
        (iec1meter_at i (λ u, dsp_process u (data buf) nframes)) s;
  s ← when (has_bits (_meter_type s) IEC2_bits)
        (iec2meter_at i (λ u, dsp_process u (data buf) nframes)) s;
  when (has_bits (_meter_type s) VU_bits)
    (vumeter_at i (λ u, dsp_process u (data buf) nframes)) s.

Definition run (bufs : BufferSet) (nframes : nat) (s : PeakMeter)
  : option PeakMeter :=
  if negb (_active s) && negb (_pending_active s) then Some s else
  let n_audio := min (n_audio (current_meters s)) (length (audio_bufs bufs)) in
  let n_midi := min (n_midi (current_meters s)) (length (midi_bufs bufs)) in
  (* Meter MIDI in to the first n_midi peaks *)
  s ← for_range 0 n_midi (run_midi bufs) s;
  (* Meter audio in to the rest of the peaks *)
  s ← for_range 0 n_audio (run_audio bufs nframes n_midi) s;
  (* Zero any excess peaks *)
  let n := n_midi + n_audio in
  s ← for_range n (length (_peak_signal s) - n)
        (λ i, peak_signal_at i fzero) s;
  Some (set_active (_pending_active s) s).

(** *** [PeakMeter::reset] and [PeakMeter::reset_max] *)

(** The body of the second loop of [reset], also used by
    [reflect_inputs]. *)
Definition reset_units (n : nat) (s : PeakMeter) : option PeakMeter :=
  s ← kmeter_at n dsp_reset s;
  s ← iec1meter_at n dsp_reset s;
  s ← iec2meter_at n dsp_reset s;
  vumeter_at n dsp_reset s.

Definition reset (s : PeakMeter) : option PeakMeter :=
  s ← for_range 0 (length (_peak_signal s))
        (λ i, peak_signal_at i fzero) s;
  for_range 0 (length (_kmeter s)) reset_units s.

Definition reset_max (s : PeakMeter) : option PeakMeter :=
  s ← for_range 0 (length (_max_peak_power s))
        (λ i s, s ← max_peak_power_at i minus_infinity s;
                max_peak_signal_at i fzero s) s;
  let n_midi := min (length (_peak_signal s)) (n_midi (current_meters s)) in
  for_range 0 (length (_peak_signal s))
    (λ n s, if decide (n < n_midi)
            then visible_peak_power_at n fzero s
            else visible_peak_power_at n minus_infinity s) s.

(** *** Reconfiguration *)

(** The bodies of the four [while] loops of [reset_max_channels]. *)
Definition pop_metrics (s : PeakMeter) : option PeakMeter :=
  p ← pop_back (_peak_signal s);
  v ← pop_back (_visible_peak_power s);
  ms ← pop_back (_max_peak_signal s);
  mp ← pop_back (_max_peak_power s);
  Some (set_max_peak_power mp (set_max_peak_signal ms
         (set_visible_peak_power v (set_peak_signal p s)))).

Definition push_metrics (s : PeakMeter) : option PeakMeter :=
  Some (set_max_peak_power (push_back (_max_peak_power s) minus_infinity)
       (set_max_peak_signal (push_back (_max_peak_signal s) fzero)
       (set_visible_peak_power
          (push_back (_visible_peak_power s) minus_infinity)
       (set_peak_signal (push_back (_peak_signal s) fzero) s)))).

Definition push_units (s : PeakMeter) : option PeakMeter :=
  Some (set_vumeter (push_back (_vumeter s) dsp_new)
       (set_iec2meter (push_back (_iec2meter s) dsp_new)
       (set_iec1meter (push_back (_iec1meter s) dsp_new)
       (set_kmeter (push_back (_kmeter s) dsp_new) s)))).

(** Each [while] loop changes the size it tests by one per iteration, so it
    runs [size - limit] (resp. [limit - size]) times. *)
Definition reset_max_channels (chn : ChanCount) (s : PeakMeter)
  : option PeakMeter :=
  let limit := n_total chn in
  let n_audio := n_audio chn in
  s ← repeat_n (length (_peak_signal s) - limit) pop_metrics s;
  s ← repeat_n (limit - length (_peak_signal s)) push_metrics s;
  s ← assert (bool_decide (length (_peak_signal s) = limit)) s;
  s ← assert (bool_decide (length (_visible_peak_power s) = limit)) s;
  s ← assert (bool_decide (length (_max_peak_signal s) = limit)) s;
  s ← assert (bool_decide (length (_max_peak_power s) = limit)) s;
  (* alloc/free other audio-only meter types. *)
  s ← repeat_n (length (_kmeter s) - n_audio) pop_units s;
  s ← repeat_n (n_audio - length (_kmeter s)) push_units s;
  s ← assert (bool_decide (length (_kmeter s) = n_audio)) s;
  s ← assert (bool_decide (length (_iec1meter s) = n_audio)) s;
  s ← assert (bool_decide (length (_iec2meter s) = n_audio)) s;
  s ← assert (bool_decide (length (_vumeter s) = n_audio)) s;
  s ← reset s;
  reset_max s.

(** [can_support_io_configuration]: the verdict and the value left in
    the out-parameter [out]. *)
Definition can_support_io_configuration (i : ChanCount)
  : bool * ChanCount :=
  let out := i in
  (true, out).

(** [configure_io] returns its verdict together with the new state. *)
Definition configure_io (i o : ChanCount) (s : PeakMeter)
  : option (bool * PeakMeter) :=
  if decide (o ≠ i) then (* always 1:1 *) Some (false, s) else
  let s := set_current_meters i s in
  s ← reset_max_channels i s;
  Some (Processor_configure_io i o, s).

Definition reflect_inputs (i : ChanCount) (s : PeakMeter)
  : option PeakMeter :=
  s ← for_range (n_total i) (n_total (current_meters s) - n_total i)
        (λ i s, if decide (i < length (_peak_signal s))
                then peak_signal_at i fzero s else Some s) s;
  s ← for_range (n_audio i) (n_audio (current_meters s) - n_audio i)
        (λ i s, if decide (length (_kmeter s) ≤ i) then Some s
                else reset_units i s) s;
  let s := set_current_meters i s in
  s ← reset_max s;
  Some (emit (ConfigurationChanged i i) s).

(** *** Reduction: [PeakMeter::meter] *)

(** The value [meter] stores in [_visible_peak_power[n]] for a MIDI
    channel: [new_peak] is the raw value grabbed, [vis] the visible value
    so far. *)
Definition midi_visible (midi_meter_falloff new_peak vis : float) : float :=
  if feq midi_meter_falloff fzero || fgt new_peak vis then new_peak
  else
    (* empirical algorithm WRT to audio falloff times *)
    let new_peak :=
      fsub vis (sqrtf (fmul (fmul vis midi_meter_falloff)
                            (Num (2 # 10000)))) in
    if flt new_peak (Num (1 # 512)) then fzero else new_peak.

(** [new_peak] of an audio channel after the conversion to dB. *)
Definition audio_level (new_peak : float) : float :=
  if fgt new_peak fzero then accurate_coefficient_to_dB new_peak
  else minus_infinity.

(** The value [meter] stores in [_visible_peak_power[n]] for an audio
    channel: [new_peak] is the level in dB. *)
Definition audio_visible (audio_meter_falloff new_peak vis : float)
  : float :=
  if feq audio_meter_falloff fzero || fgt new_peak vis then new_peak
  else
    (* do falloff *)
    let new_peak := fsub vis audio_meter_falloff in
    fmax new_peak minus_infinity.

(** The body of the loop of [meter], for the flat index [n]. *)
Definition meter_channel (n_midi : nat)
  (midi_meter_falloff audio_meter_falloff : float) (n : nat) (s : PeakMeter)
  : option PeakMeter :=
  (* grab peak since last read *)
  new_peak ← vec_get (_peak_signal s) n;
  s ← peak_signal_at n fzero s;
  if decide (n < n_midi) then
    s ← max_peak_power_at n minus_infinity s;
    s ← max_peak_signal_at n fzero s;
    vis ← vec_get (_visible_peak_power s) n;
    visible_peak_power_at n (midi_visible midi_meter_falloff new_peak vis) s
  else
    (* AUDIO *)
    old ← vec_get (_max_peak_signal s) n;
    s ← max_peak_signal_at n (fmax new_peak old) s;
    let new_peak := audio_level new_peak in
    (* update max peak *)
    old ← vec_get (_max_peak_power s) n;
    s ← max_peak_power_at n (fmax new_peak old) s;
    vis ← vec_get (_visible_peak_power s) n;
    visible_peak_power_at n
      (audio_visible audio_meter_falloff new_peak vis) s.

(** The four values of the channel [n]: raw, visible, maximum signal and
    maximum power. *)
Definition channel (n : nat) (s : PeakMeter)
  : option (float * float * float * float) :=
  raw ← _peak_signal s !! n;
  vis ← _visible_peak_power s !! n;
  max_signal ← _max_peak_signal s !! n;
  max_power ← _max_peak_power s !! n;
  Some (raw, vis, max_signal, max_power).

(** What one iteration of the loop of [meter] makes of them. *)
Definition meter_values (midi : bool)
  (midi_meter_falloff audio_meter_falloff : float)
  (x : float * float * float * float) : float * float * float * float :=
  let '(raw, vis, max_signal, max_power) := x in
  if midi then
    (fzero, midi_visible midi_meter_falloff raw vis, fzero, minus_infinity)
  else
    (fzero, audio_visible audio_meter_falloff (audio_level raw) vis,
     fmax raw max_signal, fmax (audio_level raw) max_power).

(** The guard of [meter]: some per-channel vector differs in size from
    [_peak_signal]. *)
Definition sizes_differ (s : PeakMeter) : bool :=
  bool_decide (length (_visible_peak_power s) ≠ length (_peak_signal s))
  || bool_decide (length (_max_peak_power s) ≠ length (_peak_signal s))
  || bool_decide (length (_max_peak_signal s) ≠ length (_peak_signal s)).

(** [0.01f ^= 100 Hz update rate]. *)
Definition midi_falloff (meter_falloff : float) : float :=
  fmul meter_falloff (Num (1 # 100)).

(** [kmeters: 24dB / 2 sec]. *)
Definition audio_falloff (t : MeterType) (meter_falloff : float) : float :=
  if has_bits t K_falloff_bits then Num (12 # 100)
  else midi_falloff meter_falloff.

(** [meter_falloff] is the value [Config->get_meter_falloff()] returns at
    this tick. *)
Definition meter (meter_falloff : float) (s : PeakMeter)
  : option PeakMeter :=
  if negb (_active s) then Some s else
  if sizes_differ s then Some s else
  let limit := min (length (_peak_signal s)) (n_total (current_meters s)) in
  let n_midi := min (length (_peak_signal s)) (n_midi (current_meters s)) in
  let midi_meter_falloff := midi_falloff meter_falloff in
  let audio_meter_falloff := audio_falloff (_meter_type s) meter_falloff in
  for_range 0 limit
    (meter_channel n_midi midi_meter_falloff audio_meter_falloff) s.

(** *** Query: [PeakMeter::meter_level] *)

(** The macro [CHECKSIZE(MTR)]. *)
Definition CHECKSIZE {A} (MTR : list A) (n n_midi : nat) : bool :=
  bool_decide (n < length MTR + n_midi) && bool_decide (n_midi ≤ n).

(** Modelled from the spec: [peak_power] (an inline member declared in
    ardour/meter.h, which is not part of the sources).  It returns the
    visible level of the channel, and the minus-infinity sentinel for an
    index outside the vector. *)
Definition peak_power (n : nat) (s : PeakMeter) : option float :=
  if decide (n < length (_visible_peak_power s))
  then vec_get (_visible_peak_power s) n
  else Some minus_infinity.

(** One ballistics case of the [switch]. *)
Definition unit_level {U} `{!Ballistics U} (MTR : list U) (n n_midi : nat)
  : option float :=
  if CHECKSIZE MTR n n_midi then
    u ← vec_get MTR (n - n_midi);
    Some (accurate_coefficient_to_dB (dsp_read u))
  else Some minus_infinity.

Definition is_case (type : MeterType) (labels : list MeterType) : bool :=
  existsb (Z.eqb type) labels.

Definition meter_level (n : nat) (type : MeterType) (s : PeakMeter)
  : option float :=
  let n_midi := n_midi (current_meters s) in
  if is_case type [MeterKrms; MeterK20; MeterK14; MeterK12] then
    unit_level (_kmeter s) n n_midi
  else if is_case type [MeterIEC1DIN; MeterIEC1NOR] then
    unit_level (_iec1meter s) n n_midi
  else if is_case type [MeterIEC2BBC; MeterIEC2EBU] then
    unit_level (_iec2meter s) n n_midi
  else if is_case type [MeterVU] then
    unit_level (_vumeter s) n n_midi
  else if is_case type [MeterPeak] then
    peak_power n s
  else if is_case type [MeterMaxSignal] then
    if decide (n < length (_max_peak_signal s))
    then vec_get (_max_peak_signal s) n
    else Some minus_infinity
  else (* default: case MeterMaxPeak: *)
    if decide (n < length (_max_peak_power s))
    then vec_get (_max_peak_power s) n
    else Some minus_infinity.

(** *** Type selection: [PeakMeter::set_type] *)

Definition set_type (t : MeterType) (s : PeakMeter) : option PeakMeter :=
  if decide (t = _meter_type s) then Some s else
  let s := set_meter_type t s in
  s ← when (has_bits t K_bits)
        (λ s, for_range 0 (n_audio (current_meters s))
                (λ n, kmeter_at n dsp_reset) s) s;
  s ← when (has_bits t IEC1_bits)
        (λ s, for_range 0 (n_audio (current_meters s))
                (λ n, iec1meter_at n dsp_reset) s) s;
  s ← when (has_bits t IEC2_bits)
        (λ s, for_range 0 (n_audio (current_meters s))
                (λ n, iec2meter_at n dsp_reset) s) s;
  s ← when (has_bits t VU_bits)
        (λ s, for_range 0 (n_audio (current_meters s))
                (λ n, vumeter_at n dsp_reset) s) s;
  Some (emit (TypeChanged t) s).

(** *** Sequences of calls *)

(** The operations of the meter, as values. *)
Inductive Call : Type :=
  | CallRun (bufs : BufferSet) (nframes : nat)
  | CallReset
  | CallResetMax
  | CallConfigureIo (i o : ChanCount)
  | CallReflectInputs (i : ChanCount)
  | CallResetMaxChannels (chn : ChanCount)
  | CallMeter (meter_falloff : float)
  | CallSetType (t : MeterType).

Definition call (c : Call) (s : PeakMeter) : option PeakMeter :=
  match c with
  | CallRun bufs nframes => run bufs nframes s
  | CallReset => reset s
  | CallResetMax => reset_max s
  | CallConfigureIo i o => snd <$> configure_io i o s
  | CallReflectInputs i => reflect_inputs i s
  | CallResetMaxChannels chn => reset_max_channels chn s
  | CallMeter meter_falloff => meter meter_falloff s
  | CallSetType t => set_type t s
  end.

(** The calls of [cs] in order; [None] as soon as one is undefined. *)
Fixpoint calls (cs : list Call) (s : PeakMeter) : option PeakMeter :=
  match cs with
  | [] => Some s
  | c :: cs => s' ← call c s; calls cs s'
  end.


(** *** Predicates on the state *)

(** Every value of the vector is a number (not NaN). *)
Definition numbers (v : list float) : Prop :=
  Forall (λ x, is_nan x = false) v.



(** What [run] leaves alone: everything but the raw values, the units and
    [_active]. *)
Definition run_kept (s : PeakMeter) :=
  (_pending_active s, _meter_type s, current_meters s,
   _visible_peak_power s, _max_peak_signal s, _max_peak_power s, emitted s).

(** What [meter] leaves alone: everything but the per-channel levels. *)
Definition meter_kept (s : PeakMeter) :=
  (_active s, _pending_active s, _meter_type s, current_meters s,
   _kmeter s, _iec1meter s, _iec2meter s, _vumeter s, emitted s).

(** The raw values and the maxima are numbers. *)
Definition levels_are_numbers (s : PeakMeter) : Prop :=
  numbers (_peak_signal s)
  ∧ numbers (_max_peak_signal s)
  ∧ numbers (_max_peak_power s).


(** The four per-channel vectors have one length. *)
Definition metrics_lockstep (s : PeakMeter) : Prop :=
  length (_visible_peak_power s) = length (_peak_signal s)
  ∧ length (_max_peak_signal s) = length (_peak_signal s)
  ∧ length (_max_peak_power s) = length (_peak_signal s).

(** The four vectors of ballistics units have one length. *)
Definition units_lockstep (s : PeakMeter) : Prop :=
  length (_iec1meter s) = length (_kmeter s)
  ∧ length (_iec2meter s) = length (_kmeter s)
  ∧ length (_vumeter s) = length (_kmeter s).

(** Every audio channel of the current layout has its four units. *)
Definition units_cover (s : PeakMeter) : Prop :=
  n_audio (current_meters s) ≤ length (_kmeter s)
  ∧ n_audio (current_meters s) ≤ length (_iec1meter s)
  ∧ n_audio (current_meters s) ≤ length (_iec2meter s)
  ∧ n_audio (current_meters s) ≤ length (_vumeter s).

(** The vectors cover the current layout. *)
Definition sized (s : PeakMeter) : Prop :=
  n_total (current_meters s) ≤ length (_peak_signal s) ∧ units_cover s.

(** The maxima of the MIDI channels are at their baseline. *)
Definition midi_max_baseline (s : PeakMeter) : Prop :=
  let m := min (length (_peak_signal s)) (n_midi (current_meters s)) in
  take m (_max_peak_signal s) = replicate m fzero
  ∧ take m (_max_peak_power s) = replicate m minus_infinity.


(** The units below [n] after [reset()], the others as they were. *)
Definition reset_below {U} `{!Ballistics U} (n : nat) (v : list U)
  : list U :=
  (dsp_reset <$> take n v) ++ drop n v.

(** The baseline [reset_max] gives the visible level of the channel [n],
    of which the first [m] are MIDI channels. *)
Definition visible_baseline (m n : nat) (old : float) : float :=
  if decide (n < m) then fzero else minus_infinity.

(** [s'] has vectors of the lengths of those of [s]. *)
Definition same_shape (s s' : PeakMeter) : Prop :=
  length (_peak_signal s') = length (_peak_signal s)
  ∧ length (_visible_peak_power s') = length (_visible_peak_power s)
  ∧ length (_max_peak_signal s') = length (_max_peak_signal s)
  ∧ length (_max_peak_power s') = length (_max_peak_power s)
  ∧ length (_kmeter s') = length (_kmeter s)
  ∧ length (_iec1meter s') = length (_iec1meter s)
  ∧ length (_iec2meter s') = length (_iec2meter s)
  ∧ length (_vumeter s') = length (_vumeter s).

(** What [run] makes of the units [before] of one family, of which [a]
    audio channels are metered: when the family is selected, the unit of
    each metered channel has processed the block of the channel, and the
    other units are as they were; when it is not, no unit has changed. *)
Definition units_fed {U} `{!Ballistics U} (selected : bool)
  (bufs : BufferSet) (nframes a : nat) (before after : list U) : Prop :=
  if selected then
    (∀ i buf, i < a → audio_bufs bufs !! i = Some buf →
       after !! i = (λ u, dsp_process u (data buf) nframes) <$> before !! i)
    ∧ (∀ i, a ≤ i → after !! i = before !! i)
  else after = before.

(** The call [c] asks for nothing beyond the vectors of [s]:
    [reflect_inputs] for a layout they cover, [reset_max_channels] for
    vectors that cover the current layout. *)
Definition within_vectors (c : Call) (s : PeakMeter) : Prop :=
  match c with
  | CallReflectInputs i =>
      n_total i ≤ length (_peak_signal s) ∧ n_audio i ≤ length (_kmeter s)
  | CallResetMaxChannels chn =>
      n_total (current_meters s) ≤ n_total chn
      ∧ n_audio (current_meters s) ≤ n_audio chn
  | _ => True
  end.

(** Every call of [cs] is within the vectors of the state it is made
    in. *)
Fixpoint calls_within (cs : list Call) (s : PeakMeter) : Prop :=
  match cs with
  | [] => True
  | c :: cs =>
      within_vectors c s
      ∧ match call c s with
        | Some s' => calls_within cs s'
        | None => True
        end
  end.

(** What [meter_level] answers for a ballistics family whose units are
    [MTR]: the level of the unit of the audio channel [n] when [n] is the
    flat index of an audio channel that has a unit, the sentinel
    otherwise. *)
Definition reads_unit {U} `{!Ballistics U} (MTR : list U) (n n_midi : nat)
  (r : option float) : Prop :=
  (n_midi ≤ n < n_midi + length MTR →
   ∃ u, MTR !! (n - n_midi) = Some u
        ∧ r = Some (accurate_coefficient_to_dB (dsp_read u)))
  ∧ (¬ (n_midi ≤ n < n_midi + length MTR) → r = Some minus_infinity).

End PeakMeter.

(* ===================================================================== *)
(** ** Collaborators to run the model on *)
(* ===================================================================== *)

(** A ballistics unit that holds the highest peak fed to it since its last
    reset. *)
Record PeakHold : Type := mkPeakHold { held : float }.

Global Instance PeakHold_ballistics : Ballistics PeakHold := {|
  dsp_new := mkPeakHold fzero;
  dsp_process u buf nframes := mkPeakHold (compute_peak buf nframes (held u));
  dsp_read := held;
  dsp_reset _ := mkPeakHold fzero
|}.

(** A stand-in for [20 * log10 (x)]: it agrees with it at [1.0] (0 dB), is
    increasing on the positive numbers and maps them to numbers. *)
Definition sample_dB (x : float) : float :=
  match x with
  | Num q => if Qle_bool q 0 then minus_infinity else Num (20 * (q - 1))
  | Inf false => Inf false
  | _ => NaN
  end.

(** A stand-in for [sqrt]: it agrees with it at [0.0] and [1.0]. *)
Definition sample_sqrt (x : float) : float := x.

Definition sample_collaborators : Collaborators := {|
  accurate_coefficient_to_dB := sample_dB;
  sqrtf := sample_sqrt;
  Processor_configure_io := λ _ _, true
|}.

(** A meter whose units are all of that kind. *)
Definition Meter : Type := @PeakMeter PeakHold PeakHold PeakHold PeakHold.

(** One audio buffer per element of [peaks], each holding one sample. *)
Definition audio_of (peaks : list float) : BufferSet :=
  mkBufferSet [] ((λ x, mkAudioBuffer false [x]) <$> peaks).

(** A meter for one audio channel, selected for K-20 and VU, after one
    block of peak [0.5]. *)
Definition k20_vu_meter : Meter :=
  mkPeakMeter true true (Z.lor MeterK20 MeterVU) (mkChanCount 0 1)
    [Num (1 # 2)] [minus_infinity] [fzero] [minus_infinity]
    [mkPeakHold (Num (1 # 2))] [mkPeakHold fzero] [mkPeakHold fzero]
    [mkPeakHold (Num (1 # 2))]
    [TypeChanged (Z.lor MeterK20 MeterVU)].

(** A K-20 meter for one audio channel that shows 0 dB and has captured a
    block of peak [1.0]. *)
Definition k20_meter : Meter :=
  mkPeakMeter true true MeterK20 (mkChanCount 0 1)
    [Num 1] [Num 0] [Num 1] [Num 0]
    [mkPeakHold (Num 1)] [mkPeakHold fzero] [mkPeakHold fzero]
    [mkPeakHold fzero]
    [TypeChanged MeterK20].

(** A peak meter with vectors for three audio channels whose live input
    count was reflected down to two, after one block of peak [0.5]. *)
Definition reflected_meter : Meter :=
  mkPeakMeter true true MeterPeak (mkChanCount 0 2)
    [Num (1 # 2); Num (1 # 2); fzero]
    [minus_infinity; minus_infinity; minus_infinity]
    [fzero; fzero; fzero]
    [minus_infinity; minus_infinity; minus_infinity]
    [mkPeakHold fzero; mkPeakHold fzero; mkPeakHold fzero]
    [mkPeakHold fzero; mkPeakHold fzero; mkPeakHold fzero]
    [mkPeakHold fzero; mkPeakHold fzero; mkPeakHold fzero]
    [mkPeakHold fzero; mkPeakHold fzero; mkPeakHold fzero]
    [ConfigurationChanged (mkChanCount 0 2) (mkChanCount 0 2)].

(** A state in the middle of a resize: the visible levels are one short. *)
Definition resizing_meter : Meter :=
  mkPeakMeter true true MeterPeak (mkChanCount 0 2)
    [Num (1 # 2); Num (1 # 2)] [minus_infinity] [fzero; fzero]
    [minus_infinity; minus_infinity]
    [mkPeakHold fzero; mkPeakHold fzero]
    [mkPeakHold fzero; mkPeakHold fzero]
    [mkPeakHold fzero; mkPeakHold fzero]
    [mkPeakHold fzero; mkPeakHold fzero] [].

(** A peak meter for one MIDI and one audio channel, freshly configured
    and running. *)
Definition midi_audio_meter : Meter :=
  mkPeakMeter true true MeterPeak (mkChanCount 1 1)
    [fzero; fzero] [fzero; minus_infinity] [fzero; fzero]
    [minus_infinity; minus_infinity]
    [mkPeakHold fzero] [mkPeakHold fzero] [mkPeakHold fzero]
    [mkPeakHold fzero] [].

(** A MIDI buffer with a note-on of velocity 64 followed by another
    event, and a silent audio buffer. *)
Definition note_and_silence : BufferSet :=
  mkBufferSet [mkMidiBuffer [mkMIDIEvent true 64; mkMIDIEvent false 0] 512]
              [mkAudioBuffer true [Num (1 # 4)]].

(** The same MIDI buffer with an audible audio buffer. *)
Definition note_and_sound : BufferSet :=
  mkBufferSet [mkMidiBuffer [mkMIDIEvent true 64; mkMIDIEvent false 0] 512]
              [mkAudioBuffer false [Num (- (3 # 4)); Num (1 # 4)]].

(** No MIDI buffer, a silent audio buffer and an audible one of peak
    [0.75]. *)
Definition silence_and_sound : BufferSet :=
  mkBufferSet [] [mkAudioBuffer true [Num (1 # 4)];
                  mkAudioBuffer false [Num (- (3 # 4))]].

(** A peak meter for one MIDI and two audio channels, freshly
    configured. *)
Definition midi_two_audio_meter : Meter :=
  mkPeakMeter false true MeterPeak (mkChanCount 1 2)
    [fzero; fzero; fzero] [fzero; minus_infinity; minus_infinity]
    [fzero; fzero; fzero]
    [minus_infinity; minus_infinity; minus_infinity]
    [mkPeakHold fzero; mkPeakHold fzero]
    [mkPeakHold fzero; mkPeakHold fzero]
    [mkPeakHold fzero; mkPeakHold fzero]
    [mkPeakHold fzero; mkPeakHold fzero] [].

(** The MIDI + audio meter while it is being deactivated: [_active] is
    still set and [_pending_active] has been cleared. *)
Definition stopping_meter : Meter :=
  mkPeakMeter true false MeterPeak (mkChanCount 1 1)
    [fzero; fzero] [fzero; minus_infinity] [fzero; fzero]
    [minus_infinity; minus_infinity]
    [mkPeakHold fzero] [mkPeakHold fzero] [mkPeakHold fzero]
    [mkPeakHold fzero] [].

(** The same meter after its last block, of peak [0.75]: neither active
    nor pending active. *)
Definition stopped_meter : Meter :=
  mkPeakMeter false false MeterPeak (mkChanCount 1 1)
    [Num (32895 # 65024); Num (3 # 4)] [fzero; minus_infinity]
    [fzero; fzero] [minus_infinity; minus_infinity]
    [mkPeakHold fzero] [mkPeakHold fzero] [mkPeakHold fzero]
    [mkPeakHold fzero] [].

(* ===================================================================== *)
(** ** Properties of the comparisons and of the arithmetic *)
(* ===================================================================== *)

Ltac float_cases :=
  repeat match goal with
    | a : float |- _ => destruct a as [|[]|?]
    end;
  unfold fmax, fle, flt, feq, fgt, fsub, fadd, fopp, fcompare, is_nan in *;
  simpl in *;
  repeat match goal with
    | |- context [(?p ?= ?q)%Q] => destruct (Qcompare_spec p q)
    | H : context [(?p ?= ?q)%Q] |- _ => destruct (Qcompare_spec p q)
    end;
  simpl in *;
  try congruence; try lra.

Lemma fle_refl a : is_nan a = false → fle a a = true.
Proof. intros. float_cases. Qed.

Lemma fle_trans a b c : fle a b = true → fle b c = true → fle a c = true.
Proof. intros. float_cases. Qed.

Lemma flt_fle a b : flt a b = true → fle a b = true.
Proof. intros. float_cases. Qed.

Lemma not_flt_fle a b :
  is_nan a = false → is_nan b = false → flt a b = false → fle b a = true.
Proof. intros. float_cases. Qed.

Lemma fmax_ge_l a b :
  is_nan a = false → is_nan b = false → fle a (fmax a b) = true.
Proof. intros. float_cases. Qed.



Lemma fmax_minus_infinity a : fmax a minus_infinity = a.
Proof. unfold minus_infinity. float_cases. Qed.

Lemma fsub_le p r :
  is_nan p = false → (0 <= r)%Q → fle (fsub p (Num r)) p = true.
Proof. intros. float_cases. Qed.


(* ===================================================================== *)
(** ** Properties of the loops and of the vector operations *)
(* ===================================================================== *)

Section Loops.
Context {S : Type}.
Implicit Types (body : nat → S → option S) (s : S).

(** Total correctness: an invariant indexed by the counter that every
    iteration re-establishes. *)
Lemma for_range_ind (P : nat → S → Prop) body lo count s :
  P lo s →
  (∀ i s, lo ≤ i < lo + count → P i s →
          ∃ s', body i s = Some s' ∧ P (Datatypes.S i) s') →
  ∃ s', for_range lo count body s = Some s' ∧ P (lo + count) s'.
Proof.
  revert lo s. induction count as [|c IH]; intros lo s H0 Hstep; simpl.
  - exists s. by rewrite Nat.add_0_r.
  - destruct (Hstep lo s) as (s1 & -> & H1); [lia|done|]. simpl.
    destruct (IH (Datatypes.S lo) s1) as (s' & -> & H'); [done| |].
    + intros i s2 Hi. apply Hstep. lia.
    + exists s'. split; [done|]. by replace (lo + Datatypes.S c)
        with (Datatypes.S lo + c) by lia.
Qed.

(** Partial correctness: a property every defined iteration preserves. *)
Lemma for_range_inv (Q : S → Prop) body lo count s s' :
  Q s →
  (∀ i s s', lo ≤ i < lo + count → Q s → body i s = Some s' → Q s') →
  for_range lo count body s = Some s' → Q s'.
Proof.
  revert lo s. induction count as [|c IH]; intros lo s H0 Hstep; simpl.
  - by intros [= <-].
  - intros (s1 & H1 & H2)%bind_Some.
    apply (IH (Datatypes.S lo) s1); [|intros i s2 s3 Hi; apply Hstep; lia|done].
    apply (Hstep lo s s1); [lia|done..].
Qed.

(** A loop in which only the iteration [n] changes the observation [obs]
    changes it as that iteration does. *)
Lemma for_range_slot {X} (obs : S → X) (g : X → X) body lo count n s s' :
  lo ≤ n < lo + count →
  (∀ i s s', i ≠ n → body i s = Some s' → obs s' = obs s) →
  (∀ s s', body n s = Some s' → obs s' = g (obs s)) →
  for_range lo count body s = Some s' → obs s' = g (obs s).
Proof.
  intros Hn Hne Heq. revert lo s Hn.
  induction count as [|c IH]; intros lo s Hn; simpl; [lia|].
  intros (s1 & H1 & H2)%bind_Some.
  destruct (decide (lo = n)) as [->|Hlo].
  - rewrite <- (Heq _ _ H1).
    apply (for_range_inv (λ s2, obs s2 = obs s1) body (Datatypes.S n) c s1);
      [done| |done].
    intros i s2 s3 Hi <- H3. apply (Hne i); [lia|done].
  - rewrite <- (Hne _ _ _ Hlo H1). apply (IH (Datatypes.S lo)); [lia|done].
Qed.

(** A loop that returns ran its iteration [n] on a state that [Q] holds
    of. *)
Lemma for_range_ran (Q : S → Prop) body lo count n s s' :
  lo ≤ n < lo + count → Q s →
  (∀ i s s', Q s → body i s = Some s' → Q s') →
  for_range lo count body s = Some s' →
  ∃ s1 s2, Q s1 ∧ body n s1 = Some s2.
Proof.
  intros Hn H0 Hstep. revert lo s Hn H0.
  induction count as [|c IH]; intros lo s Hn H0; simpl; [lia|].
  intros (s1 & H1 & H2)%bind_Some.
  destruct (decide (lo = n)) as [->|Hlo]; [by eauto|].
  apply (IH (Datatypes.S lo) s1); [lia|by eapply Hstep|done].
Qed.

(** A loop whose range misses [n] leaves such an observation alone. *)
Lemma for_range_other {X} (obs : S → X) body lo count s s' :
  (∀ i s s', lo ≤ i < lo + count → body i s = Some s' → obs s' = obs s) →
  for_range lo count body s = Some s' → obs s' = obs s.
Proof.
  intros Hstep.
  apply (for_range_inv (λ s2, obs s2 = obs s)); [done|].
  intros i s2 s3 Hi <- H3. by apply (Hstep i).
Qed.

End Loops.

Section Vectors.
Context {A : Type}.
Implicit Types (v : list A).

Lemma vec_set_Some v i x v' :
  vec_set v i x = Some v' ↔ i < length v ∧ v' = <[i:=x]> v.
Proof.
  unfold vec_set. case_decide; split.
  - intros [= Hv]. by rewrite <- Hv.
  - by intros [_ ->].
  - done.
  - intros [? _]. lia.
Qed.

Lemma vec_update_Some v i f v' :
  vec_update v i f = Some v' ↔ ∃ x, v !! i = Some x ∧ v' = <[i:=f x]> v.
Proof.
  unfold vec_update, vec_get. split.
  - intros (x & Hx & [_ ->]%vec_set_Some)%bind_Some. eauto.
  - intros (x & Hx & ->). rewrite Hx. simpl. apply vec_set_Some.
    split; [by eapply lookup_lt_Some|done].
Qed.

Lemma pop_back_Some v v' :
  pop_back v = Some v' ↔ 0 < length v ∧ v' = take (length v - 1) v.
Proof.
  unfold pop_back. destruct v as [|a v].
  - simpl. split; [done|]. intros [? _]. lia.
  - rewrite removelast_firstn_len. simpl length.
    replace (Init.Nat.pred (Datatypes.S (length v)))
      with (Datatypes.S (length v) - 1) by lia.
    split; [intros [= Hv]; split; [lia|by rewrite <- Hv] | by intros [_ ->]].
Qed.

(** The vector after the first [i] slots were rewritten by [f]. *)
Lemma lookup_imap_take_drop (f : nat → A → A) v i :
  (imap f (take i v) ++ drop i v) !! i = v !! i.
Proof.
  destruct (decide (i < length v)) as [Hi|Hi].
  - rewrite lookup_app_r by (rewrite length_imap, length_take; lia).
    rewrite length_imap, length_take_le, Nat.sub_diag, lookup_drop by lia.
    by rewrite Nat.add_0_r.
  - rewrite take_ge, drop_ge, app_nil_r by lia.
    rewrite !(proj2 (lookup_ge_None _ _)); rewrite ?length_imap; done || lia.
Qed.

Lemma insert_imap_take_drop (f : nat → A → A) v i x :
  v !! i = Some x →
  <[i:=f i x]> (imap f (take i v) ++ drop i v)
  = imap f (take (Datatypes.S i) v) ++ drop (Datatypes.S i) v.
Proof.
  intros Hx. pose proof (lookup_lt_Some _ _ _ Hx) as Hi.
  rewrite (take_S_r _ _ _ Hx), (drop_S _ _ _ Hx), imap_app. simpl.
  rewrite length_take_le, Nat.add_0_r, <- app_assoc by lia. simpl.
  rewrite insert_app_r_alt by (rewrite length_imap, length_take; lia).
  by rewrite length_imap, length_take_le, Nat.sub_diag by lia.
Qed.

Lemma imap_take_drop_all (f : nat → A → A) v :
  imap f (take (length v) v) ++ drop (length v) v = imap f v.
Proof. by rewrite firstn_all, drop_all, app_nil_r. Qed.

Lemma imap_constant (c : A) v :
  imap (λ _ _, c) v = replicate (length v) c.
Proof.
  induction v as [|a v IH]; [done|]. simpl. f_equal. by rewrite <- IH.
Qed.

Lemma imap_ignore (g : A → A) v : imap (λ _, g) v = g <$> v.
Proof. apply (imap_const g). Qed.

End Vectors.

(* ===================================================================== *)
(** ** Properties of the meter *)
(* ===================================================================== *)

Section Properties.

Context {Kmeterdsp Iec1ppmdsp Iec2ppmdsp Vumeterdsp : Type}.
Context `{!Ballistics Kmeterdsp, !Ballistics Iec1ppmdsp,
          !Ballistics Iec2ppmdsp, !Ballistics Vumeterdsp}.
Context `{!Collaborators}.

Local Abbreviation PeakMeter :=
  (@PeakMeter Kmeterdsp Iec1ppmdsp Iec2ppmdsp Vumeterdsp).
Implicit Types (s : PeakMeter) (n i : nat) (t type : MeterType).

(** *** Single assignments *)

Lemma peak_signal_at_Some n x s s' :
  peak_signal_at n x s = Some s' ↔
  n < length (_peak_signal s)
  ∧ s' = set_peak_signal (<[n:=x]> (_peak_signal s)) s.
Proof.
  unfold peak_signal_at. rewrite bind_Some. split.
  - intros (v & [? ->]%vec_set_Some & [= <-]). done.
  - intros [? ->]. eexists. split; [by apply vec_set_Some|done].
Qed.

Lemma visible_peak_power_at_Some n x s s' :
  visible_peak_power_at n x s = Some s' ↔
  n < length (_visible_peak_power s)
  ∧ s' = set_visible_peak_power (<[n:=x]> (_visible_peak_power s)) s.
Proof.
  unfold visible_peak_power_at. rewrite bind_Some. split.
  - intros (v & [? ->]%vec_set_Some & [= <-]). done.
  - intros [? ->]. eexists. split; [by apply vec_set_Some|done].
Qed.

Lemma max_peak_signal_at_Some n x s s' :
  max_peak_signal_at n x s = Some s' ↔
  n < length (_max_peak_signal s)
  ∧ s' = set_max_peak_signal (<[n:=x]> (_max_peak_signal s)) s.
Proof.
  unfold max_peak_signal_at. rewrite bind_Some. split.
  - intros (v & [? ->]%vec_set_Some & [= <-]). done.
  - intros [? ->]. eexists. split; [by apply vec_set_Some|done].
Qed.

Lemma max_peak_power_at_Some n x s s' :
  max_peak_power_at n x s = Some s' ↔
  n < length (_max_peak_power s)
  ∧ s' = set_max_peak_power (<[n:=x]> (_max_peak_power s)) s.
Proof.
  unfold max_peak_power_at. rewrite bind_Some. split.
  - intros (v & [? ->]%vec_set_Some & [= <-]). done.
  - intros [? ->]. eexists. split; [by apply vec_set_Some|done].
Qed.

Lemma kmeter_at_Some n f s s' :
  kmeter_at n f s = Some s' ↔
  ∃ u, _kmeter s !! n = Some u ∧ s' = set_kmeter (<[n:=f u]> (_kmeter s)) s.
Proof.
  unfold kmeter_at. rewrite bind_Some. split.
  - intros (v & (u & ? & ->)%vec_update_Some & [= <-]). eauto.
  - intros (u & ? & ->). eexists. split; [apply vec_update_Some; eauto|done].
Qed.

Lemma iec1meter_at_Some n f s s' :
  iec1meter_at n f s = Some s' ↔
  ∃ u, _iec1meter s !! n = Some u
       ∧ s' = set_iec1meter (<[n:=f u]> (_iec1meter s)) s.
Proof.
  unfold iec1meter_at. rewrite bind_Some. split.
  - intros (v & (u & ? & ->)%vec_update_Some & [= <-]). eauto.
  - intros (u & ? & ->). eexists. split; [apply vec_update_Some; eauto|done].
Qed.

Lemma iec2meter_at_Some n f s s' :
  iec2meter_at n f s = Some s' ↔
  ∃ u, _iec2meter s !! n = Some u
       ∧ s' = set_iec2meter (<[n:=f u]> (_iec2meter s)) s.
Proof.
  unfold iec2meter_at. rewrite bind_Some. split.
  - intros (v & (u & ? & ->)%vec_update_Some & [= <-]). eauto.
  - intros (u & ? & ->). eexists. split; [apply vec_update_Some; eauto|done].
Qed.

Lemma vumeter_at_Some n f s s' :
  vumeter_at n f s = Some s' ↔
  ∃ u, _vumeter s !! n = Some u
       ∧ s' = set_vumeter (<[n:=f u]> (_vumeter s)) s.
Proof.
  unfold vumeter_at. rewrite bind_Some. split.
  - intros (v & (u & ? & ->)%vec_update_Some & [= <-]). eauto.
  - intros (u & ? & ->). eexists. split; [apply vec_update_Some; eauto|done].
Qed.

(** Inversion of a defined sequence of assignments. *)
Ltac inv_ops :=
  repeat match goal with
    | H : peak_signal_at _ _ _ = Some _ |- _ =>
        apply peak_signal_at_Some in H as [? ->]
    | H : visible_peak_power_at _ _ _ = Some _ |- _ =>
        apply visible_peak_power_at_Some in H as [? ->]
    | H : max_peak_signal_at _ _ _ = Some _ |- _ =>
        apply max_peak_signal_at_Some in H as [? ->]
    | H : max_peak_power_at _ _ _ = Some _ |- _ =>
        apply max_peak_power_at_Some in H as [? ->]
    | H : kmeter_at _ _ _ = Some _ |- _ =>
        apply kmeter_at_Some in H as (? & ? & ->)
    | H : iec1meter_at _ _ _ = Some _ |- _ =>
        apply iec1meter_at_Some in H as (? & ? & ->)
    | H : iec2meter_at _ _ _ = Some _ |- _ =>
        apply iec2meter_at_Some in H as (? & ? & ->)
    | H : vumeter_at _ _ _ = Some _ |- _ =>
        apply vumeter_at_Some in H as (? & ? & ->)
    | H : when ?c _ _ = Some _ |- _ =>
        unfold when in H; destruct c eqn:?
    | H : assert ?c _ = Some _ |- _ =>
        unfold assert in H; destruct c eqn:?; [|discriminate H]
    | H : _ ≫= _ = Some _ |- _ => apply bind_Some in H as (? & ? & H)
    | H : vec_get _ _ = Some _ |- _ => unfold vec_get in H
    | H : Some _ = Some _ |- _ => apply (inj Some) in H; subst
    | H : (if ?c then _ else _) = Some _ |- _ => destruct c eqn:?
    end;
  simpl in *.

(** *** The query *)

Lemma unit_level_reads {U} `{!Ballistics U} (MTR : list U) n n_midi :
  reads_unit MTR n n_midi (unit_level MTR n n_midi).
Proof.
  unfold reads_unit, unit_level, CHECKSIZE, vec_get. split.
  - intros Hn. rewrite !bool_decide_eq_true_2 by lia. simpl.
    destruct (lookup_lt_is_Some_2 MTR (n - n_midi)) as [u Hu]; [lia|].
    exists u. by rewrite Hu.
  - intros Hn.
    destruct (decide (n < length MTR + n_midi));
      [rewrite (bool_decide_eq_false_2 (n_midi ≤ n)) by lia
      |rewrite (bool_decide_eq_false_2 (n < _)) by lia];
      by rewrite ?andb_false_r.
Qed.

Lemma unit_level_is_Some {U} `{!Ballistics U} (MTR : list U) n n_midi :
  is_Some (unit_level MTR n n_midi).
Proof.
  unfold unit_level, CHECKSIZE, vec_get.
  destruct (bool_decide _ && bool_decide _) eqn:Hc; [|done].
  apply andb_true_iff in Hc as [H1%bool_decide_eq_true H2%bool_decide_eq_true].
  destruct (lookup_lt_is_Some_2 MTR (n - n_midi)) as [u Hu]; [lia|].
  by rewrite Hu.
Qed.

(** C9.  [meter_level] never fails: for every index and every requested
    type it returns a value.  For a type of a ballistics family (K, IEC1,
    IEC2, VU) it returns [dB (unit.read())] of the unit of the channel when
    the index lies in the audio sub-range covered by that family's units,
    and the minus-infinity sentinel otherwise; for the peak and maximum
    views it returns the sentinel for every index outside the vector. *)
Theorem meter_level_sentinel n type s :
  is_Some (meter_level n type s)
  ∧ (type ∈ [MeterKrms; MeterK20; MeterK14; MeterK12] →
     reads_unit (_kmeter s) n (n_midi (current_meters s))
       (meter_level n type s))
  ∧ (type ∈ [MeterIEC1DIN; MeterIEC1NOR] →
     reads_unit (_iec1meter s) n (n_midi (current_meters s))
       (meter_level n type s))
  ∧ (type ∈ [MeterIEC2BBC; MeterIEC2EBU] →
     reads_unit (_iec2meter s) n (n_midi (current_meters s))
       (meter_level n type s))
  ∧ (type = MeterVU →
     reads_unit (_vumeter s) n (n_midi (current_meters s))
       (meter_level n type s))
  ∧ (type = MeterPeak →
     meter_level n type s = peak_power n s
     ∧ (length (_visible_peak_power s) ≤ n →
        meter_level n type s = Some minus_infinity))
  ∧ (type = MeterMaxSignal → length (_max_peak_signal s) ≤ n →
     meter_level n type s = Some minus_infinity)
  ∧ (type = MeterMaxPeak → length (_max_peak_power s) ≤ n →
     meter_level n type s = Some minus_infinity).
Proof.
  split.
  { unfold meter_level, peak_power, vec_get.
    repeat case_match; try done;
      try apply unit_level_is_Some; by apply lookup_lt_is_Some_2. }
  split; [|split; [|split; [|split; [|split; [|split]]]]].
  1-3: intros Ht; repeat (apply elem_of_cons in Ht as [->|Ht]);
       try (by apply elem_of_nil in Ht); apply unit_level_reads.
  - intros ->. apply unit_level_reads.
  - intros ->. split; [done|]. intros Hn.
    unfold meter_level, peak_power. simpl. case_decide; [lia|done].
  - intros -> Hn. unfold meter_level. simpl. case_decide; [lia|done].
  - intros -> Hn. unfold meter_level. simpl. case_decide; [lia|done].
Qed.

(** *** The guards of [meter] and [configure_io] *)

(** C4 (as amended).  Whenever the per-channel vectors are not all of the
    length of [_peak_signal], [meter] is a silent no-op: it returns, and
    the state is the one it was called with. *)
Theorem meter_skips_on_unequal_lengths meter_falloff s :
  sizes_differ s = true → meter meter_falloff s = Some s.
Proof. intros Hd. unfold meter. rewrite Hd. by destruct (negb _). Qed.

Lemma sizes_differ_false s :
  sizes_differ s = false ↔ metrics_lockstep s.
Proof.
  unfold sizes_differ, metrics_lockstep.
  rewrite !orb_false_iff, !bool_decide_eq_false.
  split; [intros [[??]?]|intros (?&?&?)]; repeat split; lia.
Qed.

(** *** Lengths are preserved by everything but reconfiguration *)

Lemma same_shape_refl s : same_shape s s.
Proof. by repeat split. Qed.

Lemma same_shape_trans s1 s2 s3 :
  same_shape s1 s2 → same_shape s2 s3 → same_shape s1 s3.
Proof.
  unfold same_shape. intros (?&?&?&?&?&?&?&?) (?&?&?&?&?&?&?&?).
  repeat split; congruence.
Qed.

Ltac shape :=
  unfold same_shape; simpl; rewrite ?length_insert; repeat split; done.

Lemma for_range_shape (body : nat → PeakMeter → option PeakMeter)
  lo count s s' :
  (∀ i s s', lo ≤ i < lo + count → body i s = Some s' → same_shape s s') →
  for_range lo count body s = Some s' → same_shape s s'.
Proof.
  intros Hbody. apply (for_range_inv (same_shape s)).
  - apply same_shape_refl.
  - intros i s1 s2 Hi H1 H2. eapply same_shape_trans; [done|].
    by eapply Hbody.
Qed.

Lemma run_midi_shape bufs i s s' :
  run_midi bufs i s = Some s' → same_shape s s'.
Proof. unfold run_midi. intros. inv_ops. shape. Qed.

Lemma run_audio_shape bufs nframes m i s s' :
  run_audio bufs nframes m i s = Some s' → same_shape s s'.
Proof. unfold run_audio. intros. inv_ops; shape. Qed.

Lemma run_shape bufs nframes s s' :
  run bufs nframes s = Some s' → same_shape s s'.
Proof.
  unfold run. destruct (negb _ && negb _).
  { intros [= <-]. apply same_shape_refl. }
  intros (s1 & H1 & (s2 & H2 & (s3 & H3 & [= <-])%bind_Some)%bind_Some)%bind_Some.
  apply for_range_shape in H1; [|intros; by eapply run_midi_shape].
  apply for_range_shape in H2; [|intros; by eapply run_audio_shape].
  apply for_range_shape in H3; [|intros; inv_ops; shape].
  eapply same_shape_trans; [done|]. eapply same_shape_trans; [done|].
  eapply same_shape_trans; [done|]. shape.
Qed.

Lemma reset_units_shape n s s' :
  reset_units n s = Some s' → same_shape s s'.
Proof. unfold reset_units. intros. inv_ops. shape. Qed.

Lemma reset_shape s s' : reset s = Some s' → same_shape s s'.
Proof.
  unfold reset. intros (s1 & H1 & H2)%bind_Some.
  apply for_range_shape in H1; [|intros; inv_ops; shape].
  apply for_range_shape in H2; [|intros; by eapply reset_units_shape].
  by eapply same_shape_trans.
Qed.

Lemma reset_max_shape s s' : reset_max s = Some s' → same_shape s s'.
Proof.
  unfold reset_max. intros (s1 & H1 & H2)%bind_Some.
  apply for_range_shape in H1; [|intros; inv_ops; shape].
  apply for_range_shape in H2; [|intros; inv_ops; shape].
  by eapply same_shape_trans.
Qed.

Lemma meter_channel_shape m mf af n s s' :
  meter_channel m mf af n s = Some s' → same_shape s s'.
Proof. unfold meter_channel. intros. inv_ops; shape. Qed.

Lemma meter_shape f s s' : meter f s = Some s' → same_shape s s'.
Proof.
  unfold meter. destruct (negb _); [intros [= <-]; apply same_shape_refl|].
  destruct (sizes_differ s); [intros [= <-]; apply same_shape_refl|].
  apply for_range_shape. intros. by eapply meter_channel_shape.
Qed.

Lemma set_type_shape t s s' : set_type t s = Some s' → same_shape s s'.
Proof.
  unfold set_type. case_decide; [intros [= <-]; apply same_shape_refl|].
  intros Hs. inv_ops.
  all: repeat match goal with
    | H : for_range _ _ _ _ = Some _ |- _ =>
        apply for_range_shape in H; [|intros; inv_ops; shape]
    end.
  all: unfold same_shape in *; simpl in *; repeat split; lia.
Qed.

Lemma reflect_inputs_shape (c : ChanCount) s s' :
  reflect_inputs c s = Some s' → same_shape s s'.
Proof.
  unfold reflect_inputs.
  intros (s1 & H1 & (s2 & H2 & (s3 & H3 & [= <-])%bind_Some)%bind_Some)%bind_Some.
  apply for_range_shape in H1; [|intros; inv_ops; shape].
  apply for_range_shape in H2;
    [|intros ???? Hb; case_decide;
      [injection Hb as <-; apply same_shape_refl
      |by eapply reset_units_shape]].
  apply reset_max_shape in H3.
  unfold same_shape in *; simpl in *; repeat split; lia.
Qed.

(** *** Closed forms of the resetting loops *)

Lemma peak_signal_at_eq n x s :
  n < length (_peak_signal s) →
  peak_signal_at n x s
  = Some (set_peak_signal (<[n:=x]> (_peak_signal s)) s).
Proof. intros. by apply peak_signal_at_Some. Qed.

Lemma visible_peak_power_at_eq n x s :
  n < length (_visible_peak_power s) →
  visible_peak_power_at n x s
  = Some (set_visible_peak_power (<[n:=x]> (_visible_peak_power s)) s).
Proof. intros. by apply visible_peak_power_at_Some. Qed.

Lemma max_peak_signal_at_eq n x s :
  n < length (_max_peak_signal s) →
  max_peak_signal_at n x s
  = Some (set_max_peak_signal (<[n:=x]> (_max_peak_signal s)) s).
Proof. intros. by apply max_peak_signal_at_Some. Qed.

Lemma max_peak_power_at_eq n x s :
  n < length (_max_peak_power s) →
  max_peak_power_at n x s
  = Some (set_max_peak_power (<[n:=x]> (_max_peak_power s)) s).
Proof. intros. by apply max_peak_power_at_Some. Qed.

Lemma kmeter_at_eq n f u s :
  _kmeter s !! n = Some u →
  kmeter_at n f s = Some (set_kmeter (<[n:=f u]> (_kmeter s)) s).
Proof. intros. apply kmeter_at_Some. eauto. Qed.

Lemma iec1meter_at_eq n f u s :
  _iec1meter s !! n = Some u →
  iec1meter_at n f s = Some (set_iec1meter (<[n:=f u]> (_iec1meter s)) s).
Proof. intros. apply iec1meter_at_Some. eauto. Qed.

Lemma iec2meter_at_eq n f u s :
  _iec2meter s !! n = Some u →
  iec2meter_at n f s = Some (set_iec2meter (<[n:=f u]> (_iec2meter s)) s).
Proof. intros. apply iec2meter_at_Some. eauto. Qed.

Lemma vumeter_at_eq n f u s :
  _vumeter s !! n = Some u →
  vumeter_at n f s = Some (set_vumeter (<[n:=f u]> (_vumeter s)) s).
Proof. intros. apply vumeter_at_Some. eauto. Qed.

(** The slot [i] of a vector whose first [i] slots were rewritten. *)
Lemma lookup_partial {A} (f : nat → A → A) (v : list A) i :
  i < length v →
  ∃ x, v !! i = Some x ∧ (imap f (take i v) ++ drop i v) !! i = Some x.
Proof.
  intros Hi. destruct (lookup_lt_is_Some_2 v i Hi) as [x Hx].
  exists x. by rewrite lookup_imap_take_drop.
Qed.

Lemma length_partial {A} (f : nat → A → A) (v : list A) i :
  length (imap f (take i v) ++ drop i v) = length v.
Proof.
  rewrite length_app, length_imap, length_take, length_drop. lia.
Qed.

(** The first loop of [reset], and the last loop of [run] from [0]. *)
Lemma zero_peaks_spec s :
  for_range 0 (length (_peak_signal s)) (λ i, peak_signal_at i fzero) s
  = Some (set_peak_signal (replicate (length (_peak_signal s)) fzero) s).
Proof.
  destruct (for_range_ind
    (λ i st, st = set_peak_signal
       (imap (λ _ _, fzero) (take i (_peak_signal s))
        ++ drop i (_peak_signal s)) s)
    (λ i, peak_signal_at i fzero) 0 (length (_peak_signal s)) s)
    as (s' & -> & ->).
  - by destruct s.
  - intros i st Hi ->.
    destruct (lookup_partial (λ _ _, fzero) (_peak_signal s) i) as (x&Hx&_);
      [lia|].
    rewrite peak_signal_at_eq by (simpl; rewrite length_partial; lia).
    eexists. split; [done|]. simpl.
    by rewrite (insert_imap_take_drop (λ _ _, fzero) _ _ _ Hx).
  - simpl. by rewrite imap_take_drop_all, imap_constant.
Qed.

(** The second loop of [reset] over the first [count] units. *)
Lemma reset_units_spec count s :
  count ≤ length (_kmeter s) → count ≤ length (_iec1meter s) →
  count ≤ length (_iec2meter s) → count ≤ length (_vumeter s) →
  for_range 0 count reset_units s
  = Some (set_vumeter (reset_below count (_vumeter s))
         (set_iec2meter (reset_below count (_iec2meter s))
         (set_iec1meter (reset_below count (_iec1meter s))
         (set_kmeter (reset_below count (_kmeter s)) s)))).
Proof.
  intros Hk H1 H2 Hv.
  destruct (for_range_ind
    (λ i st, st =
       set_vumeter
         (imap (λ _, dsp_reset) (take i (_vumeter s)) ++ drop i (_vumeter s))
       (set_iec2meter
         (imap (λ _, dsp_reset) (take i (_iec2meter s))
          ++ drop i (_iec2meter s))
       (set_iec1meter
         (imap (λ _, dsp_reset) (take i (_iec1meter s))
          ++ drop i (_iec1meter s))
       (set_kmeter
         (imap (λ _, dsp_reset) (take i (_kmeter s)) ++ drop i (_kmeter s))
          s))))
    reset_units 0 count s) as (s' & -> & ->).
  - by destruct s.
  - intros i st Hi ->. unfold reset_units.
    destruct (lookup_partial (λ _, dsp_reset) (_kmeter s) i) as (a&Ha&Ha');
      [lia|].
    destruct (lookup_partial (λ _, dsp_reset) (_iec1meter s) i)
      as (b&Hb&Hb'); [lia|].
    destruct (lookup_partial (λ _, dsp_reset) (_iec2meter s) i)
      as (c&Hc&Hc'); [lia|].
    destruct (lookup_partial (λ _, dsp_reset) (_vumeter s) i)
      as (d&Hd&Hd'); [lia|].
    erewrite kmeter_at_eq by (simpl; exact Ha'). simpl.
    erewrite iec1meter_at_eq by (simpl; exact Hb'). simpl.
    erewrite iec2meter_at_eq by (simpl; exact Hc'). simpl.
    erewrite vumeter_at_eq by (simpl; exact Hd'). simpl.
    eexists. split; [done|].
    by rewrite (insert_imap_take_drop (λ _, dsp_reset) _ _ _ Ha),
      (insert_imap_take_drop (λ _, dsp_reset) _ _ _ Hb),
      (insert_imap_take_drop (λ _, dsp_reset) _ _ _ Hc),
      (insert_imap_take_drop (λ _, dsp_reset) _ _ _ Hd).
  - simpl. unfold reset_below. by rewrite !imap_ignore.
Qed.

Lemma reset_below_ge {U} `{!Ballistics U} n (v : list U) :
  length v ≤ n → reset_below n v = dsp_reset <$> v.
Proof.
  intros. unfold reset_below. by rewrite take_ge, drop_ge, app_nil_r.
Qed.

Lemma length_reset_below {U} `{!Ballistics U} n (v : list U) :
  length (reset_below n v) = length v.
Proof.
  unfold reset_below.
  rewrite length_app, length_fmap, length_take, length_drop. lia.
Qed.

(** [reset] in closed form, for units in lockstep. *)
Lemma reset_spec s :
  units_lockstep s →
  reset s
  = Some (set_vumeter (dsp_reset <$> _vumeter s)
         (set_iec2meter (dsp_reset <$> _iec2meter s)
         (set_iec1meter (dsp_reset <$> _iec1meter s)
         (set_kmeter (dsp_reset <$> _kmeter s)
         (set_peak_signal (replicate (length (_peak_signal s)) fzero) s))))).
Proof.
  intros (H1 & H2 & Hv). unfold reset.
  rewrite zero_peaks_spec. simpl.
  rewrite reset_units_spec by (simpl; lia). simpl.
  by rewrite !reset_below_ge by lia.
Qed.

(** [reset_max] in closed form, for per-channel vectors in lockstep. *)
Lemma reset_max_spec s :
  metrics_lockstep s →
  reset_max s
  = Some (set_visible_peak_power
            (imap (visible_baseline
                     (min (length (_peak_signal s))
                          (n_midi (current_meters s))))
                  (_visible_peak_power s))
         (set_max_peak_signal
            (replicate (length (_peak_signal s)) fzero)
         (set_max_peak_power
            (replicate (length (_peak_signal s)) minus_infinity) s))).
Proof.
  intros (Hv & Hs & Hp). unfold reset_max.
  destruct (for_range_ind
    (λ i st, st =
       set_max_peak_signal
         (imap (λ _ _, fzero) (take i (_max_peak_signal s))
          ++ drop i (_max_peak_signal s))
       (set_max_peak_power
         (imap (λ _ _, minus_infinity) (take i (_max_peak_power s))
          ++ drop i (_max_peak_power s)) s))
    (λ i s, s ← max_peak_power_at i minus_infinity s;
            max_peak_signal_at i fzero s)
    0 (length (_max_peak_power s)) s) as (s1 & -> & ->).
  { by destruct s. }
  { intros i st Hi ->.
    destruct (lookup_partial (λ _ _, minus_infinity) (_max_peak_power s) i)
      as (a&Ha&_); [lia|].
    destruct (lookup_partial (λ _ _, fzero) (_max_peak_signal s) i)
      as (b&Hb&_); [lia|].
    rewrite max_peak_power_at_eq by (simpl; rewrite length_partial; lia).
    simpl.
    rewrite max_peak_signal_at_eq by (simpl; rewrite length_partial; lia).
    simpl. eexists. split; [done|].
    by rewrite (insert_imap_take_drop (λ _ _, minus_infinity) _ _ _ Ha),
      (insert_imap_take_drop (λ _ _, fzero) _ _ _ Hb). }
  simpl.
  set (m := min (length (_peak_signal s)) (n_midi (current_meters s))).
  set (s1 := set_max_peak_signal _ _).
  destruct (for_range_ind
    (λ i st, st =
       set_visible_peak_power
         (imap (visible_baseline m) (take i (_visible_peak_power s))
          ++ drop i (_visible_peak_power s)) s1)
    (λ n s, if decide (n < m)
            then visible_peak_power_at n fzero s
            else visible_peak_power_at n minus_infinity s)
    0 (length (_peak_signal s)) s1) as (s2 & -> & ->).
  { by destruct s. }
  { intros i st Hi ->.
    destruct (lookup_partial (visible_baseline m) (_visible_peak_power s) i)
      as (a&Ha&_); [lia|].
    exists (set_visible_peak_power
              (<[i:=visible_baseline m i a]>
                 (imap (visible_baseline m) (take i (_visible_peak_power s))
                  ++ drop i (_visible_peak_power s))) s1).
    split.
    - rewrite !visible_peak_power_at_eq
        by (simpl; rewrite length_partial; lia).
      unfold visible_baseline. by destruct (decide (i < m)).
    - by rewrite (insert_imap_take_drop (visible_baseline m) _ _ _ Ha). }
  simpl. subst s1. simpl.
  rewrite !take_ge, !drop_ge, !app_nil_r by lia.
  by rewrite !imap_constant, Hs, Hp.
Qed.

(** *** Closed form of [reset_max_channels] *)

Lemma pop_back_take {A} (v : list A) k :
  0 < k ≤ length v → pop_back (take k v) = Some (take (k - 1) v).
Proof.
  intros Hk. apply pop_back_Some. rewrite length_take_le by lia.
  split; [lia|]. rewrite take_take. f_equal. lia.
Qed.

(** A vector shrunk and then grown to [limit] slots. *)
Lemma shrink_grow_resize {A} (v : list A) (x : A) len limit :
  length v = len →
  take (len - (len - limit)) v
    ++ replicate (limit - (len - (len - limit))) x
  = resize limit x v.
Proof.
  intros <-. rewrite resize_spec.
  destruct (decide (length v ≤ limit)).
  - rewrite !take_ge by lia. do 2 f_equal. lia.
  - do 2 f_equal; lia.
Qed.

Lemma shrink_metrics_spec count s :
  metrics_lockstep s → count ≤ length (_peak_signal s) →
  repeat_n count pop_metrics s
  = Some (set_max_peak_power
            (take (length (_peak_signal s) - count) (_max_peak_power s))
         (set_max_peak_signal
            (take (length (_peak_signal s) - count) (_max_peak_signal s))
         (set_visible_peak_power
            (take (length (_peak_signal s) - count) (_visible_peak_power s))
         (set_peak_signal
            (take (length (_peak_signal s) - count) (_peak_signal s)) s)))).
Proof.
  intros (Hv & Hs & Hp) Hc. unfold repeat_n.
  set (len := length (_peak_signal s)) in *.
  destruct (for_range_ind
    (λ i st, st =
       set_max_peak_power (take (len - i) (_max_peak_power s))
       (set_max_peak_signal (take (len - i) (_max_peak_signal s))
       (set_visible_peak_power (take (len - i) (_visible_peak_power s))
       (set_peak_signal (take (len - i) (_peak_signal s)) s))))
    (λ _, pop_metrics) 0 count s) as (s' & -> & ->); [| |done].
  - rewrite Nat.sub_0_r, !take_ge by lia. by destruct s.
  - intros i st Hi ->. unfold pop_metrics. simpl.
    rewrite !pop_back_take by lia. simpl. eexists. split; [done|].
    by replace (len - Datatypes.S i) with (len - i - 1) by lia.
Qed.

Lemma grow_metrics_spec count s :
  repeat_n count push_metrics s
  = Some (set_max_peak_power
            (_max_peak_power s ++ replicate count minus_infinity)
         (set_max_peak_signal (_max_peak_signal s ++ replicate count fzero)
         (set_visible_peak_power
            (_visible_peak_power s ++ replicate count minus_infinity)
         (set_peak_signal (_peak_signal s ++ replicate count fzero) s)))).
Proof.
  unfold repeat_n.
  destruct (for_range_ind
    (λ i st, st =
       set_max_peak_power (_max_peak_power s ++ replicate i minus_infinity)
       (set_max_peak_signal (_max_peak_signal s ++ replicate i fzero)
       (set_visible_peak_power
          (_visible_peak_power s ++ replicate i minus_infinity)
       (set_peak_signal (_peak_signal s ++ replicate i fzero) s))))
    (λ _, push_metrics) 0 count s) as (s' & -> & ->); [| |done].
  - simpl. rewrite !app_nil_r. by destruct s.
  - intros i st Hi ->. unfold push_metrics, push_back. simpl.
    eexists. split; [done|].
    by rewrite <- !app_assoc, <- !replicate_cons_app.
Qed.

Lemma shrink_units_spec count s :
  units_lockstep s → count ≤ length (_kmeter s) →
  repeat_n count pop_units s
  = Some (set_vumeter (take (length (_kmeter s) - count) (_vumeter s))
         (set_iec2meter (take (length (_kmeter s) - count) (_iec2meter s))
         (set_iec1meter (take (length (_kmeter s) - count) (_iec1meter s))
         (set_kmeter (take (length (_kmeter s) - count) (_kmeter s)) s)))).
Proof.
  intros (H1 & H2 & Hv) Hc. unfold repeat_n.
  set (len := length (_kmeter s)) in *.
  destruct (for_range_ind
    (λ i st, st =
       set_vumeter (take (len - i) (_vumeter s))
       (set_iec2meter (take (len - i) (_iec2meter s))
       (set_iec1meter (take (len - i) (_iec1meter s))
       (set_kmeter (take (len - i) (_kmeter s)) s))))
    (λ _, pop_units) 0 count s) as (s' & -> & ->); [| |done].
  - rewrite Nat.sub_0_r, !take_ge by lia. by destruct s.
  - intros i st Hi ->. unfold pop_units. simpl.
    rewrite !pop_back_take by lia. simpl. eexists. split; [done|].
    by replace (len - Datatypes.S i) with (len - i - 1) by lia.
Qed.

Lemma grow_units_spec count s :
  repeat_n count push_units s
  = Some (set_vumeter (_vumeter s ++ replicate count dsp_new)
         (set_iec2meter (_iec2meter s ++ replicate count dsp_new)
         (set_iec1meter (_iec1meter s ++ replicate count dsp_new)
         (set_kmeter (_kmeter s ++ replicate count dsp_new) s)))).
Proof.
  unfold repeat_n.
  destruct (for_range_ind
    (λ i st, st =
       set_vumeter (_vumeter s ++ replicate i dsp_new)
       (set_iec2meter (_iec2meter s ++ replicate i dsp_new)
       (set_iec1meter (_iec1meter s ++ replicate i dsp_new)
       (set_kmeter (_kmeter s ++ replicate i dsp_new) s))))
    (λ _, push_units) 0 count s) as (s' & -> & ->); [| |done].
  - simpl. rewrite !app_nil_r. by destruct s.
  - intros i st Hi ->. unfold push_units, push_back. simpl.
    eexists. split; [done|].
    by rewrite <- !app_assoc, <- !replicate_cons_app.
Qed.

Lemma bind_intro {A B} (m : option A) (f : A → option B) x r :
  m = Some x → f x = Some r → m ≫= f = Some r.
Proof. by intros ->. Qed.

Lemma assert_true {S} (b : bool) (s : S) : b = true → assert b s = Some s.
Proof. by intros ->. Qed.

(** The per-channel vectors after the two resizing loops. *)
Lemma resize_metrics_spec limit s :
  metrics_lockstep s →
  ∃ s1, repeat_n (length (_peak_signal s) - limit) pop_metrics s = Some s1
    ∧ repeat_n (limit - length (_peak_signal s1)) push_metrics s1
      = Some (set_max_peak_power
                (resize limit minus_infinity (_max_peak_power s))
             (set_max_peak_signal (resize limit fzero (_max_peak_signal s))
             (set_visible_peak_power
                (resize limit minus_infinity (_visible_peak_power s))
             (set_peak_signal (resize limit fzero (_peak_signal s)) s)))).
Proof.
  intros Hm. pose proof Hm as (Hv & Hs & Hp).
  eexists. split; [by apply shrink_metrics_spec; [|lia]|].
  rewrite grow_metrics_spec. simpl.
  rewrite length_take_le by lia.
  by rewrite !shrink_grow_resize by done.
Qed.

Lemma resize_units_spec n s :
  units_lockstep s →
  ∃ s1, repeat_n (length (_kmeter s) - n) pop_units s = Some s1
    ∧ repeat_n (n - length (_kmeter s1)) push_units s1
      = Some (set_vumeter (resize n dsp_new (_vumeter s))
             (set_iec2meter (resize n dsp_new (_iec2meter s))
             (set_iec1meter (resize n dsp_new (_iec1meter s))
             (set_kmeter (resize n dsp_new (_kmeter s)) s)))).
Proof.
  intros Hu. pose proof Hu as (H1 & H2 & H3).
  eexists. split; [by apply shrink_units_spec; [|lia]|].
  rewrite grow_units_spec. simpl.
  rewrite length_take_le by lia.
  by rewrite !shrink_grow_resize by done.
Qed.

(** [reset_max_channels] in closed form, for vectors in lockstep: the
    vectors are resized, every unit is reset, and the raw, visible and
    maximum values are at their baseline. *)
Lemma reset_max_channels_spec (chn : ChanCount) s :
  metrics_lockstep s → units_lockstep s →
  reset_max_channels chn s
  = Some
      (set_visible_peak_power
         (imap (visible_baseline
                  (min (n_total chn) (n_midi (current_meters s))))
               (resize (n_total chn) minus_infinity (_visible_peak_power s)))
      (set_max_peak_signal (replicate (n_total chn) fzero)
      (set_max_peak_power (replicate (n_total chn) minus_infinity)
      (set_vumeter
         (dsp_reset <$> resize (n_audio chn) dsp_new (_vumeter s))
      (set_iec2meter
         (dsp_reset <$> resize (n_audio chn) dsp_new (_iec2meter s))
      (set_iec1meter
         (dsp_reset <$> resize (n_audio chn) dsp_new (_iec1meter s))
      (set_kmeter
         (dsp_reset <$> resize (n_audio chn) dsp_new (_kmeter s))
      (set_peak_signal (replicate (n_total chn) fzero) s)))))))).
Proof.
  intros Hm Hu. unfold reset_max_channels.
  destruct (resize_metrics_spec (n_total chn) s Hm) as (sa & Ea1 & Ea2).
  eapply bind_intro; [exact Ea1|]. cbv beta.
  eapply bind_intro; [exact Ea2|]. cbv beta. clear sa Ea1 Ea2.
  do 4 (eapply bind_intro;
          [apply assert_true, bool_decide_eq_true_2; simpl;
           by rewrite length_resize|]; cbv beta).
  match goal with
  | |- repeat_n _ pop_units ?s1 ≫= _ = _ =>
      destruct (resize_units_spec (n_audio chn) s1 Hu) as (sb & Eb1 & Eb2)
  end.
  eapply bind_intro; [exact Eb1|]. cbv beta.
  eapply bind_intro; [exact Eb2|]. cbv beta. clear sb Eb1 Eb2.
  do 4 (eapply bind_intro;
          [apply assert_true, bool_decide_eq_true_2; simpl;
           by rewrite length_resize|]; cbv beta).
  eapply bind_intro.
  { apply reset_spec. unfold units_lockstep. simpl.
    by rewrite !length_resize. }
  cbv beta. rewrite reset_max_spec.
  - simpl. rewrite !length_replicate, !length_resize.
    destruct s. reflexivity.
  - unfold metrics_lockstep. simpl.
    by rewrite !length_resize, !length_replicate.
Qed.

(** C5.  From a state whose vectors are in lockstep, [reset_max_channels]
    for a layout of [m] MIDI and [a] audio channels returns, and then the
    four per-channel vectors have length [m + a], the four vectors of
    ballistics units have length [a] (the units kept or freshly
    constructed, all reset), every raw value is [0], every maximum is at
    its baseline ([0] and minus infinity), and every visible level is at
    its baseline ([0] for the MIDI channels of the layout in force, minus
    infinity for the others).  [configure_io] makes the new layout the one
    in force before it calls [reset_max_channels]. *)
Theorem reset_max_channels_resizes_and_resets (m a : nat) s :
  metrics_lockstep s → units_lockstep s →
  ∃ s', reset_max_channels (mkChanCount m a) s = Some s'
    ∧ length (_peak_signal s') = m + a
    ∧ length (_visible_peak_power s') = m + a
    ∧ length (_max_peak_signal s') = m + a
    ∧ length (_max_peak_power s') = m + a
    ∧ length (_kmeter s') = a
    ∧ length (_iec1meter s') = a
    ∧ length (_iec2meter s') = a
    ∧ length (_vumeter s') = a
    ∧ _peak_signal s' = replicate (m + a) fzero
    ∧ _max_peak_signal s' = replicate (m + a) fzero
    ∧ _max_peak_power s' = replicate (m + a) minus_infinity
    ∧ (∀ n, n < m + a →
         _visible_peak_power s' !! n
         = Some (if decide (n < n_midi (current_meters s))
                 then fzero else minus_infinity))
    ∧ _kmeter s' = dsp_reset <$> resize a dsp_new (_kmeter s)
    ∧ _iec1meter s' = dsp_reset <$> resize a dsp_new (_iec1meter s)
    ∧ _iec2meter s' = dsp_reset <$> resize a dsp_new (_iec2meter s)
    ∧ _vumeter s' = dsp_reset <$> resize a dsp_new (_vumeter s)
    ∧ current_meters s' = current_meters s.
Proof.
  intros Hm Hu. eexists. split; [by apply reset_max_channels_spec|].
  unfold n_total. simpl.
  rewrite length_imap, !length_fmap, !length_resize, !length_replicate.
  repeat split; try done.
  intros n Hn. rewrite list_lookup_imap.
  destruct (lookup_lt_is_Some_2
              (resize (m + a) minus_infinity (_visible_peak_power s)) n)
    as [x Hx]; [by rewrite length_resize|].
  rewrite Hx. simpl. unfold visible_baseline.
  repeat case_decide; done || lia.
Qed.

(** C6.  [configure_io] fails whenever the output layout differs from the
    input layout, and then leaves the meter as it was.  When the two are
    equal it makes the layout the current one, resizes and resets the
    vectors for it, and answers what [Processor::configure_io] answers;
    so, the base class accepting, it accepts exactly the 1:1 layouts. *)
Theorem configure_io_one_to_one (i o : ChanCount) s :
  (o ≠ i → configure_io i o s = Some (false, s))
  ∧ (o = i → metrics_lockstep s → units_lockstep s →
     ∃ s', configure_io i o s = Some (Processor_configure_io i o, s')
       ∧ reset_max_channels i (set_current_meters i s) = Some s'
       ∧ current_meters s' = i
       ∧ length (_peak_signal s') = n_total i
       ∧ length (_kmeter s') = n_audio i)
  ∧ (metrics_lockstep s → units_lockstep s →
     Processor_configure_io i i = true →
     ∃ r s', configure_io i o s = Some (r, s') ∧ (r = true ↔ o = i)).
Proof.
  assert (Hok : metrics_lockstep s → units_lockstep s →
    ∃ s', configure_io i i s = Some (Processor_configure_io i i, s')
       ∧ reset_max_channels i (set_current_meters i s) = Some s'
       ∧ current_meters s' = i
       ∧ length (_peak_signal s') = n_total i
       ∧ length (_kmeter s') = n_audio i).
  { intros Hm Hu. unfold configure_io. rewrite decide_False by auto.
    rewrite reset_max_channels_spec by done. simpl.
    eexists. split; [done|]. split; [done|]. simpl.
    by rewrite length_replicate, length_fmap, length_resize. }
  split; [|split].
  - intros Hne. unfold configure_io. by rewrite decide_True.
  - intros ->. done.
  - intros Hm Hu Hacc. destruct (decide (o = i)) as [->|Hne].
    + destruct (Hok Hm Hu) as (s' & Hc & _). rewrite Hacc in Hc.
      exists true, s'. done.
    + exists false, s. unfold configure_io. rewrite decide_True by done.
      split; [done|]. split; intros; done.
Qed.

(** *** Type selection *)

Lemma reset_kmeter_spec count s :
  count ≤ length (_kmeter s) →
  for_range 0 count (λ n, kmeter_at n dsp_reset) s
  = Some (set_kmeter (reset_below count (_kmeter s)) s).
Proof.
  intros Hc.
  destruct (for_range_ind
    (λ i st, st = set_kmeter
       (imap (λ _, dsp_reset) (take i (_kmeter s)) ++ drop i (_kmeter s)) s)
    (λ n, kmeter_at n dsp_reset) 0 count s) as (s' & -> & ->).
  - by destruct s.
  - intros i st Hi ->.
    destruct (lookup_partial (λ _, dsp_reset) (_kmeter s) i) as (a&Ha&Ha');
      [lia|].
    erewrite kmeter_at_eq by (simpl; exact Ha'). simpl.
    eexists. split; [done|].
    by rewrite (insert_imap_take_drop (λ _, dsp_reset) _ _ _ Ha).
  - simpl. unfold reset_below. by rewrite imap_ignore.
Qed.

Lemma reset_iec1meter_spec count s :
  count ≤ length (_iec1meter s) →
  for_range 0 count (λ n, iec1meter_at n dsp_reset) s
  = Some (set_iec1meter (reset_below count (_iec1meter s)) s).
Proof.
  intros Hc.
  destruct (for_range_ind
    (λ i st, st = set_iec1meter
       (imap (λ _, dsp_reset) (take i (_iec1meter s))
        ++ drop i (_iec1meter s)) s)
    (λ n, iec1meter_at n dsp_reset) 0 count s) as (s' & -> & ->).
  - by destruct s.
  - intros i st Hi ->.
    destruct (lookup_partial (λ _, dsp_reset) (_iec1meter s) i)
      as (a&Ha&Ha'); [lia|].
    erewrite iec1meter_at_eq by (simpl; exact Ha'). simpl.
    eexists. split; [done|].
    by rewrite (insert_imap_take_drop (λ _, dsp_reset) _ _ _ Ha).
  - simpl. unfold reset_below. by rewrite imap_ignore.
Qed.

Lemma reset_iec2meter_spec count s :
  count ≤ length (_iec2meter s) →
  for_range 0 count (λ n, iec2meter_at n dsp_reset) s
  = Some (set_iec2meter (reset_below count (_iec2meter s)) s).
Proof.
  intros Hc.
  destruct (for_range_ind
    (λ i st, st = set_iec2meter
       (imap (λ _, dsp_reset) (take i (_iec2meter s))
        ++ drop i (_iec2meter s)) s)
    (λ n, iec2meter_at n dsp_reset) 0 count s) as (s' & -> & ->).
  - by destruct s.
  - intros i st Hi ->.
    destruct (lookup_partial (λ _, dsp_reset) (_iec2meter s) i)
      as (a&Ha&Ha'); [lia|].
    erewrite iec2meter_at_eq by (simpl; exact Ha'). simpl.
    eexists. split; [done|].
    by rewrite (insert_imap_take_drop (λ _, dsp_reset) _ _ _ Ha).
  - simpl. unfold reset_below. by rewrite imap_ignore.
Qed.

Lemma reset_vumeter_spec count s :
  count ≤ length (_vumeter s) →
  for_range 0 count (λ n, vumeter_at n dsp_reset) s
  = Some (set_vumeter (reset_below count (_vumeter s)) s).
Proof.
  intros Hc.
  destruct (for_range_ind
    (λ i st, st = set_vumeter
       (imap (λ _, dsp_reset) (take i (_vumeter s))
        ++ drop i (_vumeter s)) s)
    (λ n, vumeter_at n dsp_reset) 0 count s) as (s' & -> & ->).
  - by destruct s.
  - intros i st Hi ->.
    destruct (lookup_partial (λ _, dsp_reset) (_vumeter s) i)
      as (a&Ha&Ha'); [lia|].
    erewrite vumeter_at_eq by (simpl; exact Ha'). simpl.
    eexists. split; [done|].
    by rewrite (insert_imap_take_drop (λ _, dsp_reset) _ _ _ Ha).
  - simpl. unfold reset_below. by rewrite imap_ignore.
Qed.

(** [set_type] in closed form, for a type that differs from the current
    one. *)
Lemma set_type_spec t s :
  t ≠ _meter_type s → units_cover s →
  set_type t s
  = Some (emit (TypeChanged t)
         (set_vumeter
            (if has_bits t VU_bits
             then reset_below (n_audio (current_meters s)) (_vumeter s)
             else _vumeter s)
         (set_iec2meter
            (if has_bits t IEC2_bits
             then reset_below (n_audio (current_meters s)) (_iec2meter s)
             else _iec2meter s)
         (set_iec1meter
            (if has_bits t IEC1_bits
             then reset_below (n_audio (current_meters s)) (_iec1meter s)
             else _iec1meter s)
         (set_kmeter
            (if has_bits t K_bits
             then reset_below (n_audio (current_meters s)) (_kmeter s)
             else _kmeter s)
         (set_meter_type t s)))))).
Proof.
  intros Hne (Hk & H1 & H2 & Hv). unfold set_type, when.
  rewrite decide_False by done.
  destruct (has_bits t K_bits); simpl;
    [rewrite reset_kmeter_spec by done; simpl|];
    (destruct (has_bits t IEC1_bits); simpl;
      [rewrite reset_iec1meter_spec by done; simpl|]);
    (destruct (has_bits t IEC2_bits); simpl;
      [rewrite reset_iec2meter_spec by done; simpl|]);
    (destruct (has_bits t VU_bits); simpl;
      [rewrite reset_vumeter_spec by done; simpl|]);
    by destruct s.
Qed.

(** C1 (as amended).  For a new mask that differs from the old one,
    [set_type] returns, makes the new mask the current one, and resets the
    ballistics units (those of the audio channels of the current layout)
    of exactly the families that have a bit in the new mask, whether or
    not the family had one in the old mask; the units of a family without
    a bit in the new mask, and all per-channel levels, are left as they
    were. *)
Theorem set_type_resets_families_of_new_mask t s :
  t ≠ _meter_type s → units_cover s →
  ∃ s', set_type t s = Some s'
    ∧ _meter_type s' = t
    ∧ _kmeter s'
      = (if has_bits t K_bits
         then reset_below (n_audio (current_meters s)) (_kmeter s)
         else _kmeter s)
    ∧ _iec1meter s'
      = (if has_bits t IEC1_bits
         then reset_below (n_audio (current_meters s)) (_iec1meter s)
         else _iec1meter s)
    ∧ _iec2meter s'
      = (if has_bits t IEC2_bits
         then reset_below (n_audio (current_meters s)) (_iec2meter s)
         else _iec2meter s)
    ∧ _vumeter s'
      = (if has_bits t VU_bits
         then reset_below (n_audio (current_meters s)) (_vumeter s)
         else _vumeter s)
    ∧ _peak_signal s' = _peak_signal s
    ∧ _visible_peak_power s' = _visible_peak_power s
    ∧ _max_peak_signal s' = _max_peak_signal s
    ∧ _max_peak_power s' = _max_peak_power s
    ∧ current_meters s' = current_meters s
    ∧ emitted s' = TypeChanged t :: emitted s.
Proof.
  intros Hne Hc. eexists. split; [by apply set_type_spec|].
  simpl. by repeat split.
Qed.

(** *** Reduction, channel by channel *)

Lemma channel_Some n s x :
  channel n s = Some x ↔
  _peak_signal s !! n = Some x.1.1.1
  ∧ _visible_peak_power s !! n = Some x.1.1.2
  ∧ _max_peak_signal s !! n = Some x.1.2
  ∧ _max_peak_power s !! n = Some x.2.
Proof.
  unfold channel. destruct x as [[[r v] ms] mp]. simpl. split.
  - intros Hc. repeat (apply bind_Some in Hc as (? & ? & Hc)).
    by injection Hc as -> -> -> ->.
  - intros (-> & -> & -> & ->). done.
Qed.

Lemma channel_is_Some n s :
  metrics_lockstep s → n < length (_peak_signal s) → is_Some (channel n s).
Proof.
  intros (Hv & Hs & Hp) Hn. unfold channel.
  destruct (lookup_lt_is_Some_2 (_peak_signal s) n) as [? ->]; [lia|].
  destruct (lookup_lt_is_Some_2 (_visible_peak_power s) n) as [? ->]; [lia|].
  destruct (lookup_lt_is_Some_2 (_max_peak_signal s) n) as [? ->]; [lia|].
  destruct (lookup_lt_is_Some_2 (_max_peak_power s) n) as [? ->]; [lia|].
  done.
Qed.

(** The iteration [n] rewrites the channel [n]. *)
Lemma meter_channel_same m mf af n s s' :
  meter_channel m mf af n s = Some s' →
  channel n s' = meter_values (bool_decide (n < m)) mf af <$> channel n s.
Proof.
  unfold meter_channel, channel. intros Hc.
  destruct (decide (n < m)); inv_ops;
    [rewrite bool_decide_eq_true_2 by done
    |rewrite bool_decide_eq_false_2 by done];
    rewrite !list_lookup_insert_eq by done;
    repeat match goal with
      | Hl : ?l !! n = Some _ |- _ => rewrite Hl; clear Hl
      end;
    repeat match goal with
      | Hl : n < length ?l |- context [?l !! n] =>
          destruct (lookup_lt_is_Some_2 l n Hl) as [? ->]
      end;
    done.
Qed.

(** The iteration [i] leaves the other channels alone. *)
Lemma meter_channel_other m mf af i n s s' :
  i ≠ n → meter_channel m mf af i s = Some s' → channel n s' = channel n s.
Proof.
  unfold meter_channel, channel. intros Hne Hc.
  destruct (decide (i < m)); inv_ops;
    by rewrite !list_lookup_insert_ne by done.
Qed.

(** The loop leaves everything but the per-channel levels alone. *)
Lemma meter_channel_frame m mf af i s s' :
  meter_channel m mf af i s = Some s' → meter_kept s' = meter_kept s.
Proof. unfold meter_channel. intros Hc. inv_ops; done. Qed.

Lemma meter_channel_defined m mf af n s :
  n < length (_peak_signal s) → metrics_lockstep s →
  ∃ s', meter_channel m mf af n s = Some s' ∧ same_shape s s'.
Proof.
  intros Hn (Hv & Hs & Hp).
  assert (is_Some (meter_channel m mf af n s)) as [s' Hs'].
  { unfold meter_channel, vec_get.
    destruct (lookup_lt_is_Some_2 (_peak_signal s) n) as [r Hr]; [lia|].
    destruct (lookup_lt_is_Some_2 (_visible_peak_power s) n) as [v Hv'];
      [lia|].
    destruct (lookup_lt_is_Some_2 (_max_peak_signal s) n) as [ms Hms];
      [lia|].
    destruct (lookup_lt_is_Some_2 (_max_peak_power s) n) as [mp Hmp];
      [lia|].
    rewrite Hr. simpl. rewrite peak_signal_at_eq by done. simpl.
    case_decide.
    - rewrite max_peak_power_at_eq by (simpl; lia). simpl.
      rewrite max_peak_signal_at_eq by (simpl; lia). simpl.
      rewrite Hv'. simpl.
      by rewrite visible_peak_power_at_eq by (simpl; lia).
    - rewrite Hms. simpl.
      rewrite max_peak_signal_at_eq by (simpl; lia). simpl.
      rewrite Hmp. simpl.
      rewrite max_peak_power_at_eq by (simpl; lia). simpl.
      rewrite Hv'. simpl.
      by rewrite visible_peak_power_at_eq by (simpl; lia). }
  exists s'. split; [done|]. by eapply meter_channel_shape.
Qed.

(** [meter] always returns. *)
Lemma meter_defined f s : ∃ s', meter f s = Some s'.
Proof.
  unfold meter. destruct (negb (_active s)); [by eexists|].
  destruct (sizes_differ s) eqn:Hd; [by eexists|].
  apply sizes_differ_false in Hd.
  edestruct (for_range_ind (λ _ st, same_shape s st)) as (s' & Hs' & _);
    [apply same_shape_refl| |by eexists].
  intros i st Hi Hsh. simpl in Hi.
  destruct (meter_channel_defined
    (min (length (_peak_signal s)) (n_midi (current_meters s)))
    (midi_falloff f) (audio_falloff (_meter_type s) f) i st)
    as (s' & Hs' & Hsh').
  - destruct Hsh as (-> & _). lia.
  - unfold metrics_lockstep, same_shape in *. lia.
  - exists s'. split; [done|]. by eapply same_shape_trans.
Qed.

(** What a metering tick does to the channel [n], when the meter is
    active and its vectors have one length. *)
Lemma meter_channel_values f n s s' :
  _active s = true → metrics_lockstep s → meter f s = Some s' →
  channel n s'
  = if decide
         (n < min (length (_peak_signal s)) (n_total (current_meters s)))
    then meter_values
           (bool_decide (n < min (length (_peak_signal s))
                                 (n_midi (current_meters s))))
           (midi_falloff f) (audio_falloff (_meter_type s) f)
         <$> channel n s
    else channel n s.
Proof.
  intros Ha Hm%sizes_differ_false. unfold meter. rewrite Ha, Hm. simpl.
  intros Hloop. case_decide as Hn.
  - apply (for_range_slot (channel n)
             (fmap (meter_values
                (bool_decide (n < min (length (_peak_signal s))
                                      (n_midi (current_meters s))))
                (midi_falloff f) (audio_falloff (_meter_type s) f)))
             _ _ _ n _ _) in Hloop; [done|lia|..].
    + intros i s1 s2 Hne. by apply meter_channel_other.
    + intros s1 s2. apply meter_channel_same.
  - apply (for_range_other (channel n)) in Hloop; [done|].
    intros i s1 s2 Hi. apply meter_channel_other. lia.
Qed.

Lemma meter_frame f s s' :
  meter f s = Some s' → meter_kept s' = meter_kept s.
Proof.
  unfold meter. destruct (negb _); [by intros [= <-]|].
  destruct (sizes_differ s); [by intros [= <-]|].
  apply (for_range_other meter_kept).
  intros i s1 s2 _. apply meter_channel_frame.
Qed.

Lemma audio_falloff_number t (c : Q) :
  (0 <= c)%Q → ∃ r, audio_falloff t (Num c) = Num r ∧ (0 <= r)%Q.
Proof.
  intros Hc. unfold audio_falloff, midi_falloff. simpl.
  destruct (has_bits t K_falloff_bits); eexists; (split; [done|]); lra.
Qed.

(** C3 (as amended).  Let the meter be active with vectors of one length,
    [n] an audio channel that the tick processes, [x > 0] its raw value,
    [prior] its visible level, and [c >= 0] the configured falloff rate.
    The per-tick decrement [rate] is [0.12] when a K-20, K-14 or K-12 bit
    is set in the meter type, and [c * 0.01] otherwise.  One [meter] call
    sets the visible level to exactly [dB (x)] when [dB (x) > prior] or
    [rate] is [0], and otherwise to [prior - rate], which is at most
    [prior] (for a [prior] that is a number). *)
Theorem meter_audio_visible_level (c : Q) n x prior s :
  let rate := audio_falloff (_meter_type s) (Num c) in
  let level := accurate_coefficient_to_dB x in
  (0 <= c)%Q →
  _active s = true → metrics_lockstep s →
  min (length (_peak_signal s)) (n_midi (current_meters s)) ≤ n
  ∧ n < min (length (_peak_signal s)) (n_total (current_meters s)) →
  _peak_signal s !! n = Some x → fgt x fzero = true →
  _visible_peak_power s !! n = Some prior →
  ∃ s' v, meter (Num c) s = Some s'
    ∧ _visible_peak_power s' !! n = Some v
    ∧ rate = (if has_bits (_meter_type s) K_falloff_bits then Num (12 # 100)
              else Num (c * (1 # 100)))
    ∧ (if feq rate fzero || fgt level prior then v = level
       else v = fsub prior rate
            ∧ (is_nan prior = false → fle v prior = true)).
Proof.
  intros rate level Hc Ha Hm [Hlo Hhi] Hx Hpos Hprior.
  destruct (meter_defined (Num c) s) as [s' Hs'].
  pose proof (meter_channel_values _ n _ _ Ha Hm Hs') as Hch.
  rewrite decide_True, bool_decide_eq_false_2 in Hch by lia.
  destruct (channel_is_Some n s Hm) as [[[[r v] ms] mp] Hs]; [lia|].
  rewrite Hs in Hch. simpl in Hch.
  apply channel_Some in Hs as (Hr & Hv & _). simpl in Hr, Hv.
  assert (r = x) as -> by congruence.
  assert (v = prior) as -> by congruence.
  apply channel_Some in Hch as (_ & Hv' & _). simpl in Hv'.
  exists s', (audio_visible rate (audio_level x) prior).
  split; [done|]. split; [done|]. split; [done|].
  unfold audio_visible, audio_level. rewrite Hpos. fold level.
  destruct (feq rate fzero || fgt level prior); [done|].
  rewrite fmax_minus_infinity. split; [done|]. intros Hnan.
  destruct (audio_falloff_number (_meter_type s) c Hc) as (r & Hr' & Hr0).
  subst rate. rewrite Hr'. by apply fsub_le.
Qed.

(** *** Capture *)

Lemma run_midi_kept bufs i s s' :
  run_midi bufs i s = Some s' → run_kept s' = run_kept s.
Proof. unfold run_midi. intros. by inv_ops. Qed.

Lemma run_audio_kept bufs nframes m i s s' :
  run_audio bufs nframes m i s = Some s' → run_kept s' = run_kept s.
Proof. unfold run_audio. intros. by inv_ops. Qed.

Lemma run_kept_eq bufs nframes s s' :
  run bufs nframes s = Some s' → run_kept s' = run_kept s.
Proof.
  unfold run. destruct (negb _ && negb _); [by intros [= <-]|].
  intros (s1 & H1 & (s2 & H2 & (s3 & H3 & [= <-])%bind_Some)%bind_Some)%bind_Some.
  apply (for_range_other run_kept) in H1;
    [|intros ??? _; apply run_midi_kept].
  apply (for_range_other run_kept) in H2;
    [|intros ??? _; apply run_audio_kept].
  apply (for_range_other run_kept) in H3;
    [|intros ??? _ ?; by inv_ops].
  unfold run_kept in *. simpl. congruence.
Qed.



Lemma fdiv_one_nat cap :
  fdiv fone (float_of_nat cap) = Inf false
  ∨ ∃ q, fdiv fone (float_of_nat cap) = Num q ∧ (0 <= q)%Q.
Proof.
  unfold fdiv, fone, float_of_nat.
  destruct (Qeq_bool (inject_Z (Z.of_nat cap)) 0) eqn:Hz.
  - left. done.
  - right. eexists. split; [done|].
    apply Qeq_bool_neq in Hz.
    assert (0 <= inject_Z (Z.of_nat cap))%Q
      by (rewrite <- (Zle_Qle 0); lia).
    apply Qle_shift_div_l; lra.
Qed.

Lemma run_midi_defined bufs i s :
  i < length (midi_bufs bufs) → i < length (_peak_signal s) →
  is_Some (run_midi bufs i s).
Proof.
  intros Hb Hp. unfold run_midi, vec_get.
  destruct (lookup_lt_is_Some_2 _ _ Hb) as [buf ->].
  destruct (lookup_lt_is_Some_2 _ _ Hp) as [old ->]. simpl.
  by rewrite peak_signal_at_eq.
Qed.

Lemma run_audio_defined bufs nframes m i s :
  i < length (audio_bufs bufs) → m + i < length (_peak_signal s) →
  i < length (_kmeter s) → i < length (_iec1meter s) →
  i < length (_iec2meter s) → i < length (_vumeter s) →
  is_Some (run_audio bufs nframes m i s).
Proof.
  intros Hb Hp Hk H1 H2 Hv. unfold run_audio, vec_get, when.
  destruct (lookup_lt_is_Some_2 _ _ Hb) as [buf ->].
  destruct (lookup_lt_is_Some_2 _ _ Hp) as [old Hold].
  destruct (lookup_lt_is_Some_2 _ _ Hk) as [uk Huk].
  destruct (lookup_lt_is_Some_2 _ _ H1) as [u1 Hu1].
  destruct (lookup_lt_is_Some_2 _ _ H2) as [u2 Hu2].
  destruct (lookup_lt_is_Some_2 _ _ Hv) as [uv Huv]. simpl.
  destruct (silent buf); [|rewrite Hold; simpl];
    rewrite peak_signal_at_eq by done; simpl;
    (destruct (has_bits _ K_bits);
       [erewrite kmeter_at_eq by (simpl; exact Huk)|]; simpl);
    (destruct (has_bits _ IEC1_bits);
       [erewrite iec1meter_at_eq by (simpl; exact Hu1)|]; simpl);
    (destruct (has_bits _ IEC2_bits);
       [erewrite iec2meter_at_eq by (simpl; exact Hu2)|]; simpl);
    (destruct (has_bits _ VU_bits);
       [erewrite vumeter_at_eq by (simpl; exact Huv)|]; simpl);
    done.
Qed.

(** [run] returns whenever the vectors cover the current layout. *)
Lemma run_defined bufs nframes s :
  sized s → ∃ s', run bufs nframes s = Some s'.
Proof.
  intros (Hp & Hk & H1 & H2 & Hv). unfold run, n_total in *.
  destruct (negb _ && negb _); [by eexists|].
  set (a := min (n_audio (current_meters s)) (length (audio_bufs bufs))).
  set (m := min (n_midi (current_meters s)) (length (midi_bufs bufs))).
  destruct (for_range_ind (λ _ st, same_shape s st)
              (run_midi bufs) 0 m s) as (s1 & -> & Hs1).
  { apply same_shape_refl. }
  { intros i st Hi Hsh.
    destruct (run_midi_defined bufs i st) as [s' Hs'];
      [lia|destruct Hsh as (-> & _); lia|].
    exists s'. split; [done|]. eapply same_shape_trans; [done|].
    by eapply run_midi_shape. }
  simpl.
  destruct (for_range_ind (λ _ st, same_shape s st)
              (run_audio bufs nframes m) 0 a s1) as (s2 & -> & Hs2).
  { done. }
  { intros i st Hi Hsh.
    destruct (run_audio_defined bufs nframes m i st) as [s' Hs'];
      try (unfold same_shape in Hsh; lia).
    exists s'. split; [done|]. eapply same_shape_trans; [done|].
    by eapply run_audio_shape. }
  simpl.
  destruct (for_range_ind (λ _ st, same_shape s st)
              (λ i, peak_signal_at i fzero) (m + a)
              (length (_peak_signal s2) - (m + a)) s2) as (s3 & -> & Hs3).
  { done. }
  { intros i st Hi Hsh.
    rewrite peak_signal_at_eq by (unfold same_shape in *; lia).
    eexists. split; [done|]. eapply same_shape_trans; [done|]. shape. }
  simpl. by eexists.
Qed.

(** *** MIDI activity *)

(** [velocity / 127.0], as [run] computes it. *)
Lemma velocity_value (v : Z) :
  fdiv (float_of_Z v) (Num 127) = Num (inject_Z v / 127).
Proof. done. Qed.

Lemma velocity_le_one (v : Z) : (v <= 127)%Z → (inject_Z v / 127 <= 1)%Q.
Proof.
  intros Hv. apply Qle_shift_div_r; [done|].
  unfold Qle. simpl. lia.
Qed.

Lemma fle_number_r a b : fle a b = true → is_nan b = false.
Proof. intros. float_cases. Qed.

(** Once [val] has reached a level of at most [1.0] it stays there. *)
Lemma midi_event_keeps (b : Q) cap val ev :
  (b <= 1)%Q → fle (Num b) val = true →
  fle (Num b) (midi_event cap val ev) = true.
Proof.
  intros Hb Hv. unfold midi_event, fgt.
  destruct (is_note_on ev).
  - destruct (flt val _) eqn:Hlt; [|done].
    eapply fle_trans; [done|]. by apply flt_fle.
  - destruct (flt fone _) eqn:Hlt.
    + unfold fone. float_cases.
    + destruct (fdiv_one_nat cap) as [->|(q & -> & Hq)];
        unfold fone in *; float_cases.
Qed.

Lemma midi_fold_keeps (b : Q) cap evs val :
  (b <= 1)%Q → fle (Num b) val = true →
  fle (Num b) (fold_left (midi_event cap) evs val) = true.
Proof.
  intros Hb. revert val. induction evs as [|ev evs IH]; intros val Hv;
    simpl; [done|].
  apply IH. by apply midi_event_keeps.
Qed.

(** The value of a buffer is a number, and not negative. *)
Lemma midi_val_nonneg buf : fle fzero (midi_val buf) = true.
Proof. unfold midi_val. by apply midi_fold_keeps. Qed.


(** A note-on lifts [val] to its velocity. *)
Lemma midi_event_note_on cap val ev :
  is_note_on ev = true → is_nan val = false →
  fle (fdiv (float_of_Z (buffer_2 ev)) (Num 127))
      (midi_event cap val ev) = true.
Proof.
  intros Hon Hv. unfold midi_event, fgt. rewrite Hon, velocity_value.
  destruct (flt val _) eqn:Hlt; [by apply fle_refl|].
  by apply not_flt_fle.
Qed.

(** The value of a buffer is at least the velocity of each of its
    note-ons. *)
Lemma midi_val_ge_velocity buf ev :
  ev ∈ events buf → is_note_on ev = true → (buffer_2 ev <= 127)%Z →
  fle (fdiv (float_of_Z (buffer_2 ev)) (Num 127)) (midi_val buf) = true.
Proof.
  intros (l1 & l2 & Hev)%list_elem_of_split Hon Hv.
  unfold midi_val. rewrite Hev, fold_left_app. cbn [fold_left].
  rewrite velocity_value. apply midi_fold_keeps.
  - by apply velocity_le_one.
  - rewrite <- velocity_value. apply midi_event_note_on; [done|].
    eapply fle_number_r. by apply (midi_fold_keeps 0).
Qed.





Lemma run_audio_slot bufs nframes i buf s s' :
  negb (_active s) && negb (_pending_active s) = false →
  i < min (n_audio (current_meters s)) (length (audio_bufs bufs)) →
  audio_bufs bufs !! i = Some buf →
  run bufs nframes s = Some s' →
  let n := min (n_midi (current_meters s)) (length (midi_bufs bufs)) + i in
  _peak_signal s' !! n
  = (λ old, if silent buf then fzero
            else compute_peak (data buf) nframes old)
    <$> _peak_signal s !! n.
Proof.
  intros Hact Hi Hbuf. unfold run. rewrite Hact.
  set (m := min (n_midi (current_meters s)) (length (midi_bufs bufs))).
  intros (s1 & H1 & (s2 & H2 & (s3 & H3 & [= <-])%bind_Some)%bind_Some)%bind_Some.
  simpl.
  apply (for_range_other (λ s, _peak_signal s !! (m + i))) in H3;
    [|intros j sa sb Hj Hstep; inv_ops;
      apply list_lookup_insert_ne; lia].
  apply (for_range_other (λ s, _peak_signal s !! (m + i))) in H1;
    [|intros j sa sb Hj Hstep; unfold run_midi in Hstep; inv_ops;
      apply list_lookup_insert_ne; lia].
  apply (for_range_slot (λ s, _peak_signal s !! (m + i))
           (fmap (λ old, if silent buf then fzero
                         else compute_peak (data buf) nframes old))
           _ _ _ i) in H2; [congruence|lia|..].
  - intros j sa sb Hne Hstep. unfold run_audio in Hstep.
    inv_ops; try (apply list_lookup_insert_ne; lia).
  - intros sa sb Hstep. unfold run_audio in Hstep.
    inv_ops;
      repeat match goal with
        | Hb : audio_bufs bufs !! i = Some ?b |- _ =>
            assert (b = buf) as -> by congruence; clear Hb
        end;
      rewrite list_lookup_insert_eq by done;
      destruct (lookup_lt_is_Some_2 (_peak_signal sa) (m + i)) as [o Ho];
      try done; rewrite Ho; simpl;
      repeat match goal with
        | Hs : silent buf = _ |- _ => rewrite Hs
        end; congruence.
Qed.

(** C7 (as amended).  Let the meter be running (active or pending
    active) with vectors that cover the layout, and let the call supply a
    buffer for every MIDI channel of the layout, so that [run] meters the
    audio channel [i] into its flat index [n = n_midi + i].  If the block
    of the channel is declared silent the raw value of the channel is
    exactly [0] at the end of the call, whatever it was; otherwise it is
    the maximum of the prior raw value and the peak absolute sample of the
    block. *)
Theorem run_audio_raw_signal bufs nframes i buf s :
  let n := n_midi (current_meters s) + i in
  _active s || _pending_active s = true →
  sized s →
  n_midi (current_meters s) ≤ length (midi_bufs bufs) →
  i < n_audio (current_meters s) →
  audio_bufs bufs !! i = Some buf →
  ∃ s' old, run bufs nframes s = Some s'
    ∧ _peak_signal s !! n = Some old
    ∧ _peak_signal s' !! n
      = Some (if silent buf then fzero
              else fmax old (peak_abs (data buf) nframes)).
Proof.
  intros n Hact Hsz Hmidi Hi Hbuf.
  assert (negb (_active s) && negb (_pending_active s) = false) as Hact'
    by (destruct (_active s), (_pending_active s); done).
  destruct (run_defined bufs nframes s Hsz) as [s' Hs'].
  destruct (lookup_lt_is_Some_2 (_peak_signal s) n) as [old Hold].
  { destruct Hsz as (Hp & _). unfold n_total in Hp. unfold n. lia. }
  exists s', old. split; [done|]. split; [done|].
  pose proof (lookup_lt_Some _ _ _ Hbuf) as Hlen.
  assert (i < min (n_audio (current_meters s)) (length (audio_bufs bufs)))
    as Hmin by lia.
  pose proof (run_audio_slot _ _ _ _ _ _ Hact' Hmin Hbuf Hs') as Hslot.
  simpl in Hslot.
  replace (min (n_midi (current_meters s)) (length (midi_bufs bufs)))
    with (n_midi (current_meters s)) in Hslot by lia.
  fold n in Hslot. rewrite Hslot, Hold. done.
Qed.

Lemma run_sized bufs nframes s s' :
  sized s → run bufs nframes s = Some s' → sized s'.
Proof.
  intros Hsz Hrun. pose proof (run_shape _ _ _ _ Hrun) as Hsh.
  pose proof (run_kept_eq _ _ _ _ Hrun) as Hk.
  assert (current_meters s' = current_meters s) as Hc
    by (unfold run_kept in Hk; congruence).
  unfold sized, units_cover, same_shape in *. rewrite Hc. lia.
Qed.



(** *** The maxima between resets *)







Lemma meter_sized f s s' : sized s → meter f s = Some s' → sized s'.
Proof.
  intros Hsz Hs'. pose proof (meter_shape _ _ _ Hs') as Hsh.
  pose proof (meter_frame _ _ _ Hs') as Hk.
  assert (current_meters s' = current_meters s) as Hc
    by (unfold meter_kept in Hk; congruence).
  unfold sized, units_cover, same_shape in *. rewrite Hc. lia.
Qed.

Lemma same_shape_metrics_lockstep s s' :
  same_shape s s' → metrics_lockstep s → metrics_lockstep s'.
Proof. unfold same_shape, metrics_lockstep. lia. Qed.

Lemma same_shape_units_lockstep s s' :
  same_shape s s' → units_lockstep s → units_lockstep s'.
Proof. unfold same_shape, units_lockstep. lia. Qed.



(** *** The vectors stay in lockstep *)

Lemma call_lockstep c s s' :
  metrics_lockstep s → units_lockstep s → call c s = Some s' →
  metrics_lockstep s' ∧ units_lockstep s'.
Proof.
  intros Hm Hu Hc.
  assert (same_shape s s' → metrics_lockstep s' ∧ units_lockstep s') as Hsh.
  { intros Hsh. split;
      [by eapply same_shape_metrics_lockstep
      |by eapply same_shape_units_lockstep]. }
  assert (Hrmc : ∀ chn s0 s1, metrics_lockstep s0 → units_lockstep s0 →
            reset_max_channels chn s0 = Some s1 →
            metrics_lockstep s1 ∧ units_lockstep s1).
  { intros chn s0 s1 Hm0 Hu0 Hr.
    rewrite reset_max_channels_spec in Hr by done. injection Hr as <-.
    unfold metrics_lockstep, units_lockstep. simpl.
    by rewrite length_imap, !length_fmap, !length_resize,
      !length_replicate. }
  destruct c; simpl in Hc.
  - apply Hsh. by eapply run_shape.
  - apply Hsh. by eapply reset_shape.
  - apply Hsh. by eapply reset_max_shape.
  - apply fmap_Some in Hc as ([r s1] & Hc & ->). simpl.
    unfold configure_io in Hc. case_decide.
    + by injection Hc as _ <-.
    + apply bind_Some in Hc as (s2 & Hr & [= _ <-]).
      by apply (Hrmc i (set_current_meters i s)).
  - apply Hsh. by eapply reflect_inputs_shape.
  - by apply (Hrmc chn s).
  - apply Hsh. by eapply meter_shape.
  - apply Hsh. by eapply set_type_shape.
Qed.

Lemma calls_lockstep cs s s' :
  metrics_lockstep s → units_lockstep s → calls cs s = Some s' →
  metrics_lockstep s' ∧ units_lockstep s'.
Proof.
  revert s. induction cs as [|c cs IH]; intros s Hm Hu; simpl.
  - by intros [= <-].
  - intros (s1 & Hc & Hcs)%bind_Some.
    destruct (call_lockstep _ _ _ Hm Hu Hc). by apply (IH s1).
Qed.

(** The destructor, for units in lockstep, frees every unit. *)
Lemma destroy_spec s :
  units_lockstep s →
  destroy s
  = Some (set_vumeter [] (set_iec2meter [] (set_iec1meter []
            (set_kmeter [] s)))).
Proof.
  intros Hu. unfold destroy. rewrite shrink_units_spec by done.
  by rewrite Nat.sub_diag.
Qed.

(** The second loop of [reset] and the loop of the destructor index all
    four vectors by the size of [_kmeter]: they return only if no vector
    is shorter than [_kmeter]. *)
Lemma reset_units_in_bounds count s s' :
  0 < count → count ≤ length (_kmeter s) →
  for_range 0 count reset_units s = Some s' →
  count ≤ length (_iec1meter s) ∧ count ≤ length (_iec2meter s)
  ∧ count ≤ length (_vumeter s).
Proof.
  intros Hc Hk Hloop.
  destruct (for_range_ran (same_shape s) reset_units 0 count (count - 1)
              s s') as (s1 & s2 & Hsh & Hbody); [lia| | |done|].
  - apply same_shape_refl.
  - intros i sa sb Ha Hb. eapply same_shape_trans; [done|].
    by eapply reset_units_shape.
  - unfold reset_units in Hbody. inv_ops.
    repeat match goal with
      | Hl : _ !! _ = Some _ |- _ => apply lookup_lt_Some in Hl
      end.
    unfold same_shape in Hsh. simpl in *. lia.
Qed.

Lemma pop_units_shrinks s s' :
  pop_units s = Some s' →
  0 < length (_kmeter s) ∧ 0 < length (_iec1meter s)
  ∧ 0 < length (_iec2meter s) ∧ 0 < length (_vumeter s)
  ∧ length (_kmeter s') = length (_kmeter s) - 1
  ∧ length (_iec1meter s') = length (_iec1meter s) - 1
  ∧ length (_iec2meter s') = length (_iec2meter s) - 1
  ∧ length (_vumeter s') = length (_vumeter s) - 1.
Proof.
  unfold pop_units. intros Hp. inv_ops.
  repeat match goal with
    | Hl : pop_back _ = Some _ |- _ => apply pop_back_Some in Hl as [? ->]
    end.
  simpl. rewrite !length_take. lia.
Qed.

Lemma destroy_in_bounds s :
  is_Some (destroy s) →
  length (_kmeter s) ≤ length (_iec1meter s)
  ∧ length (_kmeter s) ≤ length (_iec2meter s)
  ∧ length (_kmeter s) ≤ length (_vumeter s).
Proof.
  unfold destroy, repeat_n. generalize 0.
  generalize (eq_refl (length (_kmeter s))).
  generalize (length (_kmeter s)) at 1 3 as count.
  intros count. revert s. induction count as [|c IH]; intros s Hlen lo;
    simpl; [lia|].
  intros [s' (s1 & Hp & Hrest)%bind_Some].
  apply pop_units_shrinks in Hp as Hs.
  destruct (IH s1 ltac:(lia) (Datatypes.S lo)); [by eexists|]. lia.
Qed.

(** C10.  In every state the meter reaches from its constructor, by any
    sequence of calls, the four vectors of ballistics units have one
    length.  With that, [reset] and the destructor, whose loops index all
    four vectors by the size of [_kmeter], stay in bounds and return; and
    they return only if no vector is shorter than [_kmeter]. *)
Theorem units_in_lockstep active0 cs s :
  calls cs (PeakMeter_new active0) = Some s →
  units_lockstep s
  ∧ is_Some (reset s)
  ∧ destroy s
    = Some (set_vumeter [] (set_iec2meter [] (set_iec1meter []
              (set_kmeter [] s))))
  ∧ (∀ s0 : PeakMeter,
       is_Some (reset s0) ∨ is_Some (destroy s0) →
       length (_kmeter s0) ≤ length (_iec1meter s0)
       ∧ length (_kmeter s0) ≤ length (_iec2meter s0)
       ∧ length (_kmeter s0) ≤ length (_vumeter s0)).
Proof.
  intros Hcs.
  destruct (calls_lockstep cs (PeakMeter_new active0) s) as [Hm Hu];
    [done..|].
  split; [done|]. split; [by rewrite reset_spec|].
  split; [by apply destroy_spec|].
  intros s0 [[s' Hr]|Hd]; [|by apply destroy_in_bounds].
  unfold reset in Hr. apply bind_Some in Hr as (s1 & H1 & H2).
  rewrite zero_peaks_spec in H1. injection H1 as <-. simpl in H2.
  destruct (decide (0 < length (_kmeter s0))) as [Hpos|]; [|lia].
  apply (reset_units_in_bounds (length (_kmeter s0))
           (set_peak_signal (replicate (length (_peak_signal s0)) fzero) s0))
    in H2; [done..|]. simpl. lia.
Qed.

(** *** More on capture *)

(** X1.  [run] on a running meter whose vectors cover the layout returns,
    and every raw value at or beyond the slots of the channels it metered
    (the excess peaks) is [0] afterwards. *)
Theorem run_zeroes_excess_peaks bufs nframes s :
  _active s || _pending_active s = true → sized s →
  ∃ s', run bufs nframes s = Some s'
    ∧ ∀ j, min (n_midi (current_meters s)) (length (midi_bufs bufs))
           + min (n_audio (current_meters s)) (length (audio_bufs bufs)) ≤ j →
           j < length (_peak_signal s) →
           _peak_signal s' !! j = Some fzero.
Proof.
  intros Hact Hsz. destruct (run_defined bufs nframes s Hsz) as [s' Hs'].
  exists s'. split; [done|]. intros j Hlo Hhi.
  assert (negb (_active s) && negb (_pending_active s) = false) as Hact'
    by (destruct (_active s), (_pending_active s); done).
  unfold run in Hs'. rewrite Hact' in Hs'.
  apply bind_Some in Hs' as (s1 & H1 & Hs').
  apply bind_Some in Hs' as (s2 & H2 & Hs').
  apply bind_Some in Hs' as (s3 & H3 & [= <-]). simpl.
  pose proof H1 as L1. pose proof H2 as L2.
  apply for_range_shape in L1; [|intros; by eapply run_midi_shape].
  apply for_range_shape in L2; [|intros; by eapply run_audio_shape].
  destruct L1 as (L1 & _), L2 as (L2 & _).
  apply (for_range_slot (λ s, _peak_signal s !! j) (λ _, Some fzero)
           _ _ _ j) in H3; [done|lia|..].
  - intros i sa sb Hne Hstep. cbv beta in Hstep. inv_ops.
    by apply list_lookup_insert_ne.
  - intros sa sb Hstep. cbv beta in Hstep. inv_ops.
    by apply list_lookup_insert_eq.
Qed.

(** X3.  [run] never touches the visible levels, the maxima, the meter
    type, the layout, [_pending_active] or the signals, and it keeps the
    length of every vector; a meter that is neither active nor pending
    active is left exactly as it was, and otherwise [_active] takes the
    value of [_pending_active]. *)
Theorem run_frame bufs nframes s s' :
  run bufs nframes s = Some s' →
  run_kept s' = run_kept s
  ∧ same_shape s s'
  ∧ (if _active s || _pending_active s
     then _active s' = _pending_active s
     else s' = s).
Proof.
  intros Hs'. split; [by eapply run_kept_eq|]. split; [by eapply run_shape|].
  pose proof (run_kept_eq _ _ _ _ Hs') as Hk. unfold run_kept in Hk.
  assert (_pending_active s' = _pending_active s) as Hp by congruence.
  unfold run in Hs'. destruct (_active s), (_pending_active s); simpl in *;
    try (by injection Hs' as <-);
    apply bind_Some in Hs' as (s1 & H1 & Hs');
    apply bind_Some in Hs' as (s2 & H2 & Hs');
    apply bind_Some in Hs' as (s3 & H3 & [= <-]); simpl in *; done.
Qed.

(** The units of one family after one iteration of the audio loop. *)
Lemma run_audio_units bufs nframes m i s s' :
  run_audio bufs nframes m i s = Some s' →
  ∃ buf, audio_bufs bufs !! i = Some buf
    ∧ _meter_type s' = _meter_type s
    ∧ (∀ j, _kmeter s' !! j
            = if has_bits (_meter_type s) K_bits && bool_decide (j = i)
              then (λ u, dsp_process u (data buf) nframes) <$> _kmeter s !! j
              else _kmeter s !! j)
    ∧ (∀ j, _iec1meter s' !! j
            = if has_bits (_meter_type s) IEC1_bits && bool_decide (j = i)
              then (λ u, dsp_process u (data buf) nframes)
                   <$> _iec1meter s !! j
              else _iec1meter s !! j)
    ∧ (∀ j, _iec2meter s' !! j
            = if has_bits (_meter_type s) IEC2_bits && bool_decide (j = i)
              then (λ u, dsp_process u (data buf) nframes)
                   <$> _iec2meter s !! j
              else _iec2meter s !! j)
    ∧ (∀ j, _vumeter s' !! j
            = if has_bits (_meter_type s) VU_bits && bool_decide (j = i)
              then (λ u, dsp_process u (data buf) nframes)
                   <$> _vumeter s !! j
              else _vumeter s !! j).
Proof.
  unfold run_audio. intros Hstep.
  apply bind_Some in Hstep as (buf & Hbuf & Hstep). exists buf.
  split; [done|].
  apply bind_Some in Hstep as (s1 & H1 & Hstep).
  assert (_meter_type s1 = _meter_type s ∧ _kmeter s1 = _kmeter s
          ∧ _iec1meter s1 = _iec1meter s ∧ _iec2meter s1 = _iec2meter s
          ∧ _vumeter s1 = _vumeter s) as (Et & Ek & E1 & E2 & Ev).
  { destruct (silent buf); by inv_ops. }
  rewrite <- Et, <- Ek, <- E1, <- E2, <- Ev. clear Et Ek E1 E2 Ev H1 s.
  inv_ops;
    repeat match goal with
      | H : has_bits _ _ = _ |- _ => rewrite H
      end;
    (split; [done|]); repeat split; intros j; simpl; try done;
    case_bool_decide; subst; try done;
    rewrite ?list_lookup_insert_ne by done; try done;
    (rewrite list_lookup_insert_eq by (by eapply lookup_lt_Some));
    match goal with
    | H : ?v !! i = Some _ |- _ = _ <$> ?v !! i => by rewrite H
    end.
Qed.

(** The units of one family after the whole audio loop: [get] reads the
    family, and [sel] is its selection bit, which the loop keeps. *)
Lemma run_audio_loop_units {U} `{!Ballistics U}
  (get : PeakMeter → list U) (sel : PeakMeter → bool) bufs nframes m a s s' :
  a ≤ length (audio_bufs bufs) →
  (∀ i sa sb, run_audio bufs nframes m i sa = Some sb →
     ∃ buf, audio_bufs bufs !! i = Some buf ∧ sel sb = sel sa
       ∧ ∀ j, get sb !! j
              = if sel sa && bool_decide (j = i)
                then (λ u, dsp_process u (data buf) nframes) <$> get sa !! j
                else get sa !! j) →
  for_range 0 a (run_audio bufs nframes m) s = Some s' →
  units_fed (sel s) bufs nframes a (get s) (get s').
Proof.
  intros Ha Hbody Hloop. unfold units_fed.
  destruct (sel s) eqn:Hsel.
  - split.
    + intros i buf Hi Hbuf.
      apply (for_range_slot (λ s, (sel s, get s !! i))
               (λ x, (x.1, if x.1
                           then (λ u, dsp_process u (data buf) nframes)
                                <$> x.2
                           else x.2)) _ _ _ i) in Hloop.
      * simpl in Hloop. rewrite Hsel in Hloop. by injection Hloop.
      * lia.
      * intros j sa sb Hne Hstep.
        destruct (Hbody _ _ _ Hstep) as (b & _ & -> & Hj).
        rewrite Hj. rewrite bool_decide_eq_false_2 by done.
        by rewrite andb_false_r.
      * intros sa sb Hstep.
        destruct (Hbody _ _ _ Hstep) as (b & Hb & -> & Hj).
        rewrite Hj. rewrite bool_decide_eq_true_2 by done.
        rewrite andb_true_r. simpl.
        assert (b = buf) as -> by congruence. done.
    + intros i Hi.
      apply (for_range_other (λ s, get s !! i)) in Hloop; [done|].
      intros j sa sb Hj Hstep.
      destruct (Hbody _ _ _ Hstep) as (b & _ & _ & Hget).
      rewrite Hget. rewrite bool_decide_eq_false_2 by lia.
      by rewrite andb_false_r.
  - apply list_eq. intros i.
    apply (for_range_inv (λ s2, sel s2 = false ∧ get s2 !! i = get s !! i))
      in Hloop; [by destruct Hloop|done|].
    intros j sa sb Hj [Hs Hg] Hstep.
    destruct (Hbody _ _ _ Hstep) as (b & _ & -> & Hget).
    rewrite Hget, Hs. done.
Qed.

(** X2.  [run] on a running meter feeds the block of every audio channel
    it meters to the unit of that channel, in each ballistics family the
    meter type selects, and to no other unit: the units of a family that is
    not selected, and the units of channels it does not meter, are left as
    they were. *)
Theorem run_feeds_selected_units bufs nframes s :
  _active s || _pending_active s = true → sized s →
  let a := min (n_audio (current_meters s)) (length (audio_bufs bufs)) in
  ∃ s', run bufs nframes s = Some s'
    ∧ units_fed (has_bits (_meter_type s) K_bits) bufs nframes a
        (_kmeter s) (_kmeter s')
    ∧ units_fed (has_bits (_meter_type s) IEC1_bits) bufs nframes a
        (_iec1meter s) (_iec1meter s')
    ∧ units_fed (has_bits (_meter_type s) IEC2_bits) bufs nframes a
        (_iec2meter s) (_iec2meter s')
    ∧ units_fed (has_bits (_meter_type s) VU_bits) bufs nframes a
        (_vumeter s) (_vumeter s').
Proof.
  intros Hact Hsz a. destruct (run_defined bufs nframes s Hsz) as [s' Hs'].
  exists s'. split; [done|].
  assert (negb (_active s) && negb (_pending_active s) = false) as Hact'
    by (destruct (_active s), (_pending_active s); done).
  unfold run in Hs'. rewrite Hact' in Hs'.
  apply bind_Some in Hs' as (s1 & H1 & Hs').
  apply bind_Some in Hs' as (s2 & H2 & Hs').
  apply bind_Some in Hs' as (s3 & H3 & [= <-]). simpl.
  assert ((_meter_type s1, current_meters s1, _kmeter s1, _iec1meter s1,
           _iec2meter s1, _vumeter s1)
          = (_meter_type s, current_meters s, _kmeter s, _iec1meter s,
             _iec2meter s, _vumeter s)) as E1.
  { apply (for_range_other
             (λ s, (_meter_type s, current_meters s, _kmeter s,
                    _iec1meter s, _iec2meter s, _vumeter s))) in H1;
      [done|].
    intros i sa sb _ Hstep. unfold run_midi in Hstep. by inv_ops. }
  assert ((_kmeter s3, _iec1meter s3, _iec2meter s3, _vumeter s3)
          = (_kmeter s2, _iec1meter s2, _iec2meter s2, _vumeter s2)) as E3.
  { apply (for_range_other
             (λ s, (_kmeter s, _iec1meter s, _iec2meter s, _vumeter s)))
      in H3; [done|].
    intros i sa sb _ Hstep. cbv beta in Hstep. by inv_ops. }
  injection E1 as Et Ec Ek Ei1 Ei2 Ev.
  injection E3 as -> -> -> ->.
  change (for_range 0 a (run_audio bufs nframes
            (min (n_midi (current_meters s)) (length (midi_bufs bufs)))) s1
          = Some s2) in H2.
  rewrite <- Et, <- Ek, <- Ei1, <- Ei2, <- Ev.
  assert (a ≤ length (audio_bufs bufs)) as Ha by (unfold a; lia).
  split; [|split; [|split]].
  - eapply (run_audio_loop_units _kmeter
             (λ s, has_bits (_meter_type s) K_bits));
      [exact Ha| |exact H2].
    intros i sa sb Hstep.
    destruct (run_audio_units _ _ _ _ _ _ Hstep)
      as (buf & Hb & Ht & Hk & _).
    exists buf. by rewrite Ht.
  - eapply (run_audio_loop_units _iec1meter
             (λ s, has_bits (_meter_type s) IEC1_bits));
      [exact Ha| |exact H2].
    intros i sa sb Hstep.
    destruct (run_audio_units _ _ _ _ _ _ Hstep)
      as (buf & Hb & Ht & _ & Hk & _).
    exists buf. by rewrite Ht.
  - eapply (run_audio_loop_units _iec2meter
             (λ s, has_bits (_meter_type s) IEC2_bits));
      [exact Ha| |exact H2].
    intros i sa sb Hstep.
    destruct (run_audio_units _ _ _ _ _ _ Hstep)
      as (buf & Hb & Ht & _ & _ & Hk & _).
    exists buf. by rewrite Ht.
  - eapply (run_audio_loop_units _vumeter
             (λ s, has_bits (_meter_type s) VU_bits));
      [exact Ha| |exact H2].
    intros i sa sb Hstep.
    destruct (run_audio_units _ _ _ _ _ _ Hstep)
      as (buf & Hb & Ht & _ & _ & _ & Hk).
    exists buf. by rewrite Ht.
Qed.

(** *** More on the resets *)

(** X4.  [reset] on a meter whose four unit vectors have one length
    returns; afterwards every raw value is [0] and every unit of all four
    families has been reset, whatever the meter type selects, while the
    visible levels, the maxima, the type, the layout, the flags and the
    signals are as they were. *)
Theorem reset_clears_raw_values_and_units s :
  units_lockstep s →
  ∃ s', reset s = Some s'
    ∧ _peak_signal s' = replicate (length (_peak_signal s)) fzero
    ∧ _kmeter s' = dsp_reset <$> _kmeter s
    ∧ _iec1meter s' = dsp_reset <$> _iec1meter s
    ∧ _iec2meter s' = dsp_reset <$> _iec2meter s
    ∧ _vumeter s' = dsp_reset <$> _vumeter s
    ∧ _visible_peak_power s' = _visible_peak_power s
    ∧ _max_peak_signal s' = _max_peak_signal s
    ∧ _max_peak_power s' = _max_peak_power s
    ∧ _meter_type s' = _meter_type s
    ∧ current_meters s' = current_meters s
    ∧ _active s' = _active s
    ∧ _pending_active s' = _pending_active s
    ∧ emitted s' = emitted s.
Proof.
  intros Hu. rewrite reset_spec by done. eexists. split; [reflexivity|].
  simpl. by repeat split.
Qed.

(** The visible baseline of a slot of the vectors. *)
Lemma lookup_visible_baseline (m : nat) (v : list float) n :
  n < length v →
  imap (visible_baseline (min (length v) m)) v !! n
  = Some (if decide (n < m) then fzero else minus_infinity).
Proof.
  intros Hn. rewrite list_lookup_imap.
  destruct (lookup_lt_is_Some_2 v n Hn) as [x ->]. simpl.
  unfold visible_baseline. repeat case_decide; (done || lia).
Qed.

(** X5.  [reset_max] on a meter whose four per-channel vectors have one
    length returns; afterwards every maximum of the signal is [0], every
    maximum of the level is minus infinity, and the visible level of a
    channel is [0] when its index is below the MIDI count of the layout
    and minus infinity otherwise.  The raw values, the units, the type,
    the layout, the flags and the signals are as they were. *)
Theorem reset_max_baselines s :
  metrics_lockstep s →
  ∃ s', reset_max s = Some s'
    ∧ _max_peak_signal s' = replicate (length (_peak_signal s)) fzero
    ∧ _max_peak_power s'
      = replicate (length (_peak_signal s)) minus_infinity
    ∧ length (_visible_peak_power s') = length (_peak_signal s)
    ∧ (∀ n, n < length (_peak_signal s) →
         _visible_peak_power s' !! n
         = Some (if decide (n < n_midi (current_meters s))
                 then fzero else minus_infinity))
    ∧ _peak_signal s' = _peak_signal s
    ∧ meter_kept s' = meter_kept s.
Proof.
  intros Hm. rewrite reset_max_spec by done. eexists.
  split; [reflexivity|]. destruct Hm as (Hv & Hs & Hp). simpl.
  split; [done|]. split; [done|]. split; [by rewrite length_imap|].
  split; [|done]. intros n Hn. rewrite <- Hv.
  apply lookup_visible_baseline. lia.
Qed.

(** *** [reflect_inputs] *)

(** One unit of each family is reset by [reset_units], and nothing else
    changes. *)
Lemma reset_units_effect n s s' :
  reset_units n s = Some s' →
  run_kept s' = run_kept s ∧ _active s' = _active s
  ∧ _peak_signal s' = _peak_signal s
  ∧ (∀ j, _kmeter s' !! j
          = if bool_decide (j = n) then dsp_reset <$> _kmeter s !! j
            else _kmeter s !! j)
  ∧ (∀ j, _iec1meter s' !! j
          = if bool_decide (j = n) then dsp_reset <$> _iec1meter s !! j
            else _iec1meter s !! j)
  ∧ (∀ j, _iec2meter s' !! j
          = if bool_decide (j = n) then dsp_reset <$> _iec2meter s !! j
            else _iec2meter s !! j)
  ∧ (∀ j, _vumeter s' !! j
          = if bool_decide (j = n) then dsp_reset <$> _vumeter s !! j
            else _vumeter s !! j).
Proof.
  unfold reset_units. intros Hstep. inv_ops.
  do 3 (split; [done|]).
  repeat split; intros j; simpl; case_bool_decide; subst;
    rewrite ?list_lookup_insert_ne by done; try done;
    (rewrite list_lookup_insert_eq by (by eapply lookup_lt_Some));
    match goal with
    | H : ?v !! n = Some _ |- _ = _ <$> ?v !! n => by rewrite H
    end.
Qed.

Lemma reset_units_defined n s :
  n < length (_kmeter s) → units_lockstep s →
  ∃ s', reset_units n s = Some s'.
Proof.
  intros Hn (H1 & H2 & Hv). unfold reset_units.
  destruct (lookup_lt_is_Some_2 (_kmeter s) n) as [a Ha]; [lia|].
  destruct (lookup_lt_is_Some_2 (_iec1meter s) n) as [b Hb]; [lia|].
  destruct (lookup_lt_is_Some_2 (_iec2meter s) n) as [c Hc]; [lia|].
  destruct (lookup_lt_is_Some_2 (_vumeter s) n) as [d Hd]; [lia|].
  erewrite kmeter_at_eq by exact Ha. simpl.
  erewrite iec1meter_at_eq by (simpl; exact Hb). simpl.
  erewrite iec2meter_at_eq by (simpl; exact Hc). simpl.
  erewrite vumeter_at_eq by (simpl; exact Hd). eauto.
Qed.

(** The first loop of [reflect_inputs]. *)
Lemma reflect_inputs_zeroes lo count s :
  ∃ s', for_range lo count
          (λ i s, if decide (i < length (_peak_signal s))
                  then peak_signal_at i fzero s else Some s) s = Some s'
    ∧ run_kept s' = run_kept s ∧ _active s' = _active s
    ∧ _kmeter s' = _kmeter s ∧ _iec1meter s' = _iec1meter s
    ∧ _iec2meter s' = _iec2meter s ∧ _vumeter s' = _vumeter s
    ∧ ∀ j, _peak_signal s' !! j
           = if decide (lo ≤ j < lo + count)
             then (λ _, fzero) <$> _peak_signal s !! j
             else _peak_signal s !! j.
Proof.
  destruct (for_range_ind (λ _ _, True)
              (λ i s, if decide (i < length (_peak_signal s))
                      then peak_signal_at i fzero s else Some s)
              lo count s) as (s' & Hs' & _); [done| |].
  { intros i s1 _ _. case_decide; [|by eauto].
    rewrite peak_signal_at_eq by done. eauto. }
  exists s'. split; [done|].
  pose proof Hs' as Hk.
  apply (for_range_other
           (λ s, (run_kept s, _active s, _kmeter s, _iec1meter s,
                  _iec2meter s, _vumeter s))) in Hk.
  2:{ intros i sa sb _ Hstep. cbv beta in Hstep. by inv_ops. }
  do 6 (split; [congruence|]). clear Hk.
  intros j. case_decide as Hj.
  - apply (for_range_slot (λ s, _peak_signal s !! j)
             (fmap (λ _, fzero)) _ _ _ j) in Hs'; [done|lia|..].
    + intros i sa sb Hne Hstep. cbv beta in Hstep. inv_ops; [|done].
      by apply list_lookup_insert_ne.
    + intros sa sb Hstep. cbv beta in Hstep. inv_ops.
      * rewrite list_lookup_insert_eq by done.
        by destruct (lookup_lt_is_Some_2 (_peak_signal sa) j l) as [x ->].
      * rewrite lookup_ge_None_2 by lia. done.
  - apply (for_range_other (λ s, _peak_signal s !! j)) in Hs'; [done|].
    intros i sa sb Hi Hstep. cbv beta in Hstep. inv_ops; [|done].
    apply list_lookup_insert_ne. lia.
Qed.

(** The units of one family after the second loop of [reflect_inputs]:
    [get] reads the family. *)
Lemma reflect_inputs_loop_units {U} `{!Ballistics U}
  (get : PeakMeter → list U) lo count s s' :
  (∀ i sa sb, reset_units i sa = Some sb →
     ∀ j, get sb !! j = if bool_decide (j = i)
                        then dsp_reset <$> get sa !! j else get sa !! j) →
  length (get s) = length (_kmeter s) →
  for_range lo count
    (λ i s, if decide (length (_kmeter s) ≤ i) then Some s
            else reset_units i s) s = Some s' →
  ∀ j, get s' !! j = if decide (lo ≤ j < lo + count)
                     then dsp_reset <$> get s !! j else get s !! j.
Proof.
  intros Hbody Hlen Hloop j. case_decide as Hj.
  - apply (for_range_slot (λ s, (length (_kmeter s), get s !! j))
             (λ x, (x.1, if decide (x.1 ≤ j) then x.2
                         else dsp_reset <$> x.2)) _ _ _ j) in Hloop.
    + simpl in Hloop. injection Hloop as _ ->. case_decide; [|done].
      rewrite lookup_ge_None_2 by lia. done.
    + lia.
    + intros i sa sb Hne Hstep. cbv beta in Hstep.
      case_decide; [by injection Hstep as <-|].
      pose proof (reset_units_shape _ _ _ Hstep) as (_&_&_&_&->&_).
      rewrite (Hbody _ _ _ Hstep). by rewrite bool_decide_eq_false_2.
    + intros sa sb Hstep. cbv beta in Hstep. simpl.
      case_decide; [by injection Hstep as <-|].
      pose proof (reset_units_shape _ _ _ Hstep) as (_&_&_&_&->&_).
      rewrite (Hbody _ _ _ Hstep). by rewrite bool_decide_eq_true_2.
  - apply (for_range_other (λ s, get s !! j)) in Hloop; [done|].
    intros i sa sb Hi Hstep. cbv beta in Hstep.
    case_decide; [by injection Hstep as <-|].
    rewrite (Hbody _ _ _ Hstep). rewrite bool_decide_eq_false_2; [done|lia].
Qed.

(** The second loop of [reflect_inputs]. *)
Lemma reflect_inputs_resets lo count s :
  units_lockstep s →
  ∃ s', for_range lo count
          (λ i s, if decide (length (_kmeter s) ≤ i) then Some s
                  else reset_units i s) s = Some s'
    ∧ run_kept s' = run_kept s ∧ _active s' = _active s
    ∧ _peak_signal s' = _peak_signal s
    ∧ (∀ j, _kmeter s' !! j
            = if decide (lo ≤ j < lo + count)
              then dsp_reset <$> _kmeter s !! j else _kmeter s !! j)
    ∧ (∀ j, _iec1meter s' !! j
            = if decide (lo ≤ j < lo + count)
              then dsp_reset <$> _iec1meter s !! j else _iec1meter s !! j)
    ∧ (∀ j, _iec2meter s' !! j
            = if decide (lo ≤ j < lo + count)
              then dsp_reset <$> _iec2meter s !! j else _iec2meter s !! j)
    ∧ (∀ j, _vumeter s' !! j
            = if decide (lo ≤ j < lo + count)
              then dsp_reset <$> _vumeter s !! j else _vumeter s !! j).
Proof.
  intros Hu.
  destruct (for_range_ind (λ _ s2, units_lockstep s2)
              (λ i s, if decide (length (_kmeter s) ≤ i) then Some s
                      else reset_units i s)
              lo count s) as (s' & Hs' & _); [done| |].
  { intros i s1 _ H1. case_decide; [by eauto|].
    destruct (reset_units_defined i s1) as [s2 H2]; [lia|done|].
    exists s2. split; [done|].
    eapply same_shape_units_lockstep; [|done].
    by eapply reset_units_shape. }
  exists s'. split; [done|].
  pose proof Hs' as Hk.
  apply (for_range_other
           (λ s, (run_kept s, _active s, _peak_signal s))) in Hk.
  2:{ intros i sa sb _ Hstep. cbv beta in Hstep.
      case_decide; [by injection Hstep as <-|].
      destruct (reset_units_effect _ _ _ Hstep) as (-> & -> & -> & _).
      done. }
  do 3 (split; [congruence|]). clear Hk.
  destruct Hu as (H1 & H2 & Hv).
  split; [|split; [|split]].
  - eapply (reflect_inputs_loop_units _kmeter); [|done|exact Hs'].
    intros i sa sb Hstep.
    by destruct (reset_units_effect _ _ _ Hstep) as (_&_&_&?&_).
  - eapply (reflect_inputs_loop_units _iec1meter); [|done|exact Hs'].
    intros i sa sb Hstep.
    by destruct (reset_units_effect _ _ _ Hstep) as (_&_&_&_&?&_).
  - eapply (reflect_inputs_loop_units _iec2meter); [|done|exact Hs'].
    intros i sa sb Hstep.
    by destruct (reset_units_effect _ _ _ Hstep) as (_&_&_&_&_&?&_).
  - eapply (reflect_inputs_loop_units _vumeter); [|done|exact Hs'].
    intros i sa sb Hstep.
    by destruct (reset_units_effect _ _ _ Hstep) as (_&_&_&_&_&_&?).
Qed.

(** X6.  [reflect_inputs] on a meter whose vectors are in lockstep
    returns.  It clears the raw values of the flat indices from the total
    of the new layout up to the total of the old one, resets the units of
    the audio channels from the audio count of the new layout up to that
    of the old one, and leaves the other raw values and units alone.  It
    then adopts the new layout, resets every maximum and puts every
    visible level at its baseline for the new layout, and emits
    [ConfigurationChanged (in, in)].  No vector changes its length. *)
Theorem reflect_inputs_effect (i : ChanCount) s :
  metrics_lockstep s → units_lockstep s →
  ∃ s', reflect_inputs i s = Some s'
    ∧ current_meters s' = i
    ∧ emitted s' = ConfigurationChanged i i :: emitted s
    ∧ same_shape s s'
    ∧ (∀ j, _peak_signal s' !! j
            = if decide (n_total i ≤ j < n_total (current_meters s))
              then (λ _, fzero) <$> _peak_signal s !! j
              else _peak_signal s !! j)
    ∧ (∀ j, _kmeter s' !! j
            = if decide (n_audio i ≤ j < n_audio (current_meters s))
              then dsp_reset <$> _kmeter s !! j else _kmeter s !! j)
    ∧ (∀ j, _iec1meter s' !! j
            = if decide (n_audio i ≤ j < n_audio (current_meters s))
              then dsp_reset <$> _iec1meter s !! j else _iec1meter s !! j)
    ∧ (∀ j, _iec2meter s' !! j
            = if decide (n_audio i ≤ j < n_audio (current_meters s))
              then dsp_reset <$> _iec2meter s !! j else _iec2meter s !! j)
    ∧ (∀ j, _vumeter s' !! j
            = if decide (n_audio i ≤ j < n_audio (current_meters s))
              then dsp_reset <$> _vumeter s !! j else _vumeter s !! j)
    ∧ _max_peak_signal s' = replicate (length (_peak_signal s)) fzero
    ∧ _max_peak_power s'
      = replicate (length (_peak_signal s)) minus_infinity
    ∧ (∀ n, n < length (_peak_signal s) →
         _visible_peak_power s' !! n
         = Some (if decide (n < n_midi i) then fzero else minus_infinity))
    ∧ _meter_type s' = _meter_type s
    ∧ _active s' = _active s
    ∧ _pending_active s' = _pending_active s.
Proof.
  intros Hm Hu. unfold reflect_inputs.
  destruct (reflect_inputs_zeroes (n_total i)
              (n_total (current_meters s) - n_total i) s)
    as (s1 & H1 & K1 & A1 & Ek & E1 & E2 & Ev & P1).
  rewrite H1. simpl.
  assert (same_shape s s1) as S1.
  { eapply for_range_shape; [|exact H1].
    intros j sa sb _ Hstep. cbv beta in Hstep. inv_ops; [shape|].
    apply same_shape_refl. }
  assert (units_lockstep s1) as Hu1
    by (by eapply same_shape_units_lockstep).
  destruct (reflect_inputs_resets (n_audio i)
              (n_audio (current_meters s1) - n_audio i) s1 Hu1)
    as (s2 & H2 & K2 & A2 & P2 & Uk & U1 & U2 & Uv).
  rewrite H2. simpl.
  assert (same_shape s1 s2) as S2.
  { eapply for_range_shape; [|exact H2].
    intros j sa sb _ Hstep. cbv beta in Hstep.
    case_decide; [injection Hstep as <-; apply same_shape_refl|].
    by eapply reset_units_shape. }
  assert (same_shape s s2) as S by (by eapply same_shape_trans).
  assert (metrics_lockstep (set_current_meters i s2)) as Hm2.
  { pose proof (same_shape_metrics_lockstep _ _ S Hm) as Hm'.
    by destruct s2. }
  rewrite reset_max_spec by exact Hm2. simpl.
  eexists. split; [reflexivity|]. simpl.
  unfold run_kept in K1, K2.
  assert (current_meters s1 = current_meters s) as Ec by congruence.
  rewrite Ec in *.
  destruct S as (L1 & L2 & L3 & L4 & L5 & L6 & L7 & L8).
  split; [done|]. split; [congruence|].
  split.
  { unfold same_shape. simpl.
    rewrite length_imap, !length_replicate.
    destruct Hm as (M1 & M2 & M3). repeat split; congruence. }
  split. { intros j. rewrite P2, P1. repeat case_decide; (done || lia). }
  split. { intros j. rewrite Uk, Ek. repeat case_decide; (done || lia). }
  split. { intros j. rewrite U1, E1. repeat case_decide; (done || lia). }
  split. { intros j. rewrite U2, E2. repeat case_decide; (done || lia). }
  split. { intros j. rewrite Uv, Ev. repeat case_decide; (done || lia). }
  split; [by rewrite L1|]. split; [by rewrite L1|].
  split.
  { intros n Hn. destruct Hm as (M1 & _).
    replace (length (_peak_signal s2))
      with (length (_visible_peak_power s2)) by congruence.
    apply lookup_visible_baseline. lia. }
  repeat split; congruence.
Qed.

(** *** More on reduction *)



(** X9.  [meter] always returns.  It never changes a unit, the meter
    type, the layout, the flags or the signals, nor the length of any
    vector, and on a meter that is not active it changes nothing. *)
Theorem meter_total_and_frame f s :
  ∃ s', meter f s = Some s'
    ∧ meter_kept s' = meter_kept s
    ∧ same_shape s s'
    ∧ (if _active s then True else s' = s).
Proof.
  destruct (meter_defined f s) as [s' Hs']. exists s'.
  split; [done|]. split; [by eapply meter_frame|].
  split; [by eapply meter_shape|].
  unfold meter in Hs'. destruct (_active s); [done|].
  simpl in Hs'. by injection Hs' as <-.
Qed.

(** *** More on the query *)

(** X10.  [meter_level] compares the type with the case labels for
    equality.  For [MeterMaxSignal] and an index inside the vector it
    answers the stored maximum of the signal, for [MeterMaxPeak] the
    stored maximum of the level; a type that is none of the twelve labels,
    such as a mask of two of them, is answered as [MeterMaxPeak] is. *)
Theorem meter_level_stored_maxima n type s :
  (type = MeterMaxSignal → n < length (_max_peak_signal s) →
   meter_level n type s = _max_peak_signal s !! n)
  ∧ (type = MeterMaxPeak → n < length (_max_peak_power s) →
     meter_level n type s = _max_peak_power s !! n)
  ∧ (type ∉ [MeterMaxSignal; MeterMaxPeak; MeterPeak; MeterKrms; MeterK20;
             MeterK14; MeterIEC1DIN; MeterIEC1NOR; MeterIEC2BBC;
             MeterIEC2EBU; MeterVU; MeterK12] →
     meter_level n type s = meter_level n MeterMaxPeak s).
Proof.
  split; [|split].
  - intros -> Hn. unfold meter_level. simpl. by rewrite decide_True.
  - intros -> Hn. unfold meter_level. simpl. by rewrite decide_True.
  - intros Hnot. unfold meter_level.
    assert (∀ l, (∀ x, x ∈ l → x ∈ [MeterMaxSignal; MeterMaxPeak;
                      MeterPeak; MeterKrms; MeterK20; MeterK14;
                      MeterIEC1DIN; MeterIEC1NOR; MeterIEC2BBC;
                      MeterIEC2EBU; MeterVU; MeterK12]) →
            is_case type l = false) as Hcase.
    { intros l Hl. unfold is_case. apply not_true_is_false.
      intros (x & Hx & Heq)%existsb_exists. apply Z.eqb_eq in Heq.
      subst x. apply Hnot, Hl. by apply list_elem_of_In. }
    rewrite !Hcase; [done|intros x; rewrite !elem_of_cons, elem_of_nil; tauto..].
Qed.

(** *** More on the scan of a MIDI buffer *)

(** One event keeps [val] at most [1.0]. *)
Lemma midi_event_le_one cap val ev :
  (is_note_on ev = true → (buffer_2 ev <= 127)%Z) →
  fle fzero val = true → fle val fone = true →
  fle (midi_event cap val ev) fone = true.
Proof.
  intros Hvel H0 Hv. unfold midi_event, fgt.
  destruct (is_note_on ev).
  - rewrite velocity_value.
    destruct (flt val _) eqn:Hlt; [|done].
    pose proof (velocity_le_one _ (Hvel eq_refl)).
    unfold fone, fle. simpl.
    destruct (Qcompare_spec (inject_Z (buffer_2 ev) / 127) 1);
      (done || lra).
  - destruct (fdiv_one_nat cap) as [E|(q & E & Hq)]; rewrite E; clear E;
      (destruct (flt fone _) eqn:Hlt; [done|]);
      unfold fone, fzero in *; float_cases.
Qed.

(** X11.  The value [run] computes for a MIDI buffer lies between [0.0]
    and [1.0] when the velocity byte of every note-on is at most 127, is
    [0.0] for a buffer without events, and is [1.0] as soon as the buffer
    holds a note-on of velocity 127. *)
Theorem midi_val_range buf :
  Forall (λ ev, is_note_on ev = true → (buffer_2 ev <= 127)%Z)
         (events buf) →
  fle fzero (midi_val buf) = true
  ∧ fle (midi_val buf) fone = true
  ∧ (events buf = [] → midi_val buf = fzero)
  ∧ (mkMIDIEvent true 127 ∈ events buf → feq (midi_val buf) fone = true).
Proof.
  intros Hvel. split; [apply midi_val_nonneg|].
  assert (fle (midi_val buf) fone = true) as Hle.
  { unfold midi_val.
    assert (fle fzero fzero = true ∧ fle fzero fone = true) as H0 by done.
    revert H0. generalize fzero at 2 3 4 as val.
    induction Hvel as [|ev evs Hev _ IH]; intros val [Hlo Hhi]; simpl;
      [done|].
    apply IH. split; [by apply (midi_event_keeps 0)|].
    by apply midi_event_le_one. }
  split; [done|]. split.
  - intros Hnil. unfold midi_val. by rewrite Hnil.
  - intros Hin.
    pose proof (midi_val_ge_velocity buf _ Hin eq_refl) as Hge.
    cbn [buffer_2] in Hge. specialize (Hge ltac:(done)).
    rewrite velocity_value in Hge.
    revert Hle Hge. generalize (midi_val buf) as x. intros x. unfold fone.
    destruct x as [|[]|q]; unfold fle, feq; simpl; try done.
    destruct (Qcompare_spec q 1), (Qcompare_spec (inject_Z 127 / 127) q);
      try done; intros _ _; exfalso;
      assert (inject_Z 127 / 127 == 1)%Q by reflexivity; lra.
Qed.

(** *** More on reconfiguration *)

(** X12.  An accepted [configure_io] leaves the meter ready for capture:
    the vectors cover the new layout and are in lockstep, every raw value
    and every maximum is a number, the maxima of the MIDI channels are at
    their baseline, and [run] on any buffers returns.  The meter type and
    the flags are as they were. *)
Theorem configure_io_ready (i : ChanCount) s :
  metrics_lockstep s → units_lockstep s →
  ∃ s', configure_io i i s = Some (Processor_configure_io i i, s')
    ∧ sized s' ∧ metrics_lockstep s' ∧ units_lockstep s'
    ∧ levels_are_numbers s' ∧ midi_max_baseline s'
    ∧ (∀ bufs nframes, is_Some (run bufs nframes s'))
    ∧ _meter_type s' = _meter_type s
    ∧ _active s' = _active s
    ∧ _pending_active s' = _pending_active s.
Proof.
  intros Hm Hu. unfold configure_io. rewrite decide_False by (by intros []).
  rewrite reset_max_channels_spec by (by destruct s). simpl.
  eexists. split; [reflexivity|].
  assert (sized
    (set_visible_peak_power
       (imap (visible_baseline (min (n_total i) (n_midi i)))
          (resize (n_total i) minus_infinity (_visible_peak_power s)))
    (set_max_peak_signal (replicate (n_total i) fzero)
    (set_max_peak_power (replicate (n_total i) minus_infinity)
    (set_vumeter (dsp_reset <$> resize (n_audio i) dsp_new (_vumeter s))
    (set_iec2meter
       (dsp_reset <$> resize (n_audio i) dsp_new (_iec2meter s))
    (set_iec1meter
       (dsp_reset <$> resize (n_audio i) dsp_new (_iec1meter s))
    (set_kmeter (dsp_reset <$> resize (n_audio i) dsp_new (_kmeter s))
    (set_peak_signal (replicate (n_total i) fzero)
       (set_current_meters i s)))))))))) as Hsz.
  { unfold sized, units_cover. simpl.
    by rewrite !length_fmap, !length_resize, length_replicate. }
  split; [exact Hsz|].
  split.
  { unfold metrics_lockstep. simpl.
    by rewrite length_imap, length_resize, !length_replicate. }
  split.
  { unfold units_lockstep. simpl.
    by rewrite !length_fmap, !length_resize. }
  split.
  { unfold levels_are_numbers, numbers. simpl.
    repeat split; by apply Forall_replicate. }
  split.
  { unfold midi_max_baseline. simpl.
    rewrite length_replicate, !take_replicate.
    split; f_equal; unfold n_total; lia. }
  split.
  { intros bufs nframes.
    destruct (run_defined bufs nframes _ Hsz) as [s' ->]. by eexists. }
  done.
Qed.

(** X13.  [can_support_io_configuration] accepts every input layout and
    proposes the same layout as output, and that proposal passes the
    1:1 check of [configure_io]: on a meter whose vectors are in lockstep
    the call configured with it is not refused by the meter. *)
Theorem can_support_io_configuration_is_one_to_one (i : ChanCount) s :
  (can_support_io_configuration i).1 = true
  ∧ (can_support_io_configuration i).2 = i
  ∧ (metrics_lockstep s → units_lockstep s →
     ∃ s', configure_io i (can_support_io_configuration i).2 s
           = Some (Processor_configure_io i i, s')
       ∧ current_meters s' = i).
Proof.
  split; [done|]. split; [done|]. intros Hm Hu. simpl.
  unfold configure_io. rewrite decide_False by (by intros []).
  rewrite reset_max_channels_spec by (by destruct s). simpl.
  eexists. split; [reflexivity|]. done.
Qed.

(** X14.  Every state reached from the constructor by the operations of
    the meter has its four per-channel vectors at one length, so the size
    guard of [meter] does not fire in it and [reset_max] returns. *)
Theorem reachable_metrics_in_lockstep active0 cs s :
  calls cs (PeakMeter_new active0) = Some s →
  metrics_lockstep s
  ∧ sizes_differ s = false
  ∧ is_Some (reset_max s).
Proof.
  intros Hcs.
  destruct (calls_lockstep cs (PeakMeter_new active0) s) as [Hm _];
    [done|done|done|].
  split; [done|]. split; [by apply sizes_differ_false|].
  rewrite reset_max_spec by done. by eexists.
Qed.

(** *** More on type selection *)

(** X15.  [set_type] with the type the meter already has changes nothing
    and emits nothing; hence selecting a type twice in a row resets the
    units and emits [TypeChanged] once only. *)
Theorem set_type_twice t s s1 :
  set_type t s = Some s1 →
  set_type (_meter_type s) s = Some s
  ∧ _meter_type s1 = t
  ∧ set_type t s1 = Some s1.
Proof.
  intros H1.
  assert (∀ s0 : PeakMeter, set_type (_meter_type s0) s0 = Some s0) as Hsame.
  { intros s0. unfold set_type. by rewrite decide_True. }
  split; [apply Hsame|].
  assert (_meter_type s1 = t) as Ht.
  { unfold set_type in H1. case_decide as Hd; [by injection H1 as <-|].
    apply bind_Some in H1 as (sa & Ha & H1).
    apply bind_Some in H1 as (sb & Hb & H1).
    apply bind_Some in H1 as (sc & Hc & H1).
    apply bind_Some in H1 as (sd & Hd' & [= <-]). simpl.
    assert (∀ c body (x y : PeakMeter),
              (∀ x y, body x = Some y → _meter_type y = _meter_type x) →
              when c body x = Some y → _meter_type y = _meter_type x)
      as Hwhen.
    { intros c body x y Hbody. unfold when. destruct c; [apply Hbody|].
      by intros [= <-]. }
    apply Hwhen in Ha, Hb, Hc, Hd';
      try (intros x y Hloop;
           apply (for_range_other _meter_type) in Hloop; [done|];
           intros j sa' sb' _ Hstep; by inv_ops).
    simpl in Ha. congruence. }
  split; [done|]. rewrite <- Ht at 1. apply Hsame.
Qed.

(** *** Sequences of calls that stay within the vectors *)

Lemma same_shape_sized s s' :
  same_shape s s' → current_meters s' = current_meters s →
  sized s → sized s'.
Proof.
  unfold same_shape, sized, units_cover. intros Hs ->. lia.
Qed.

Lemma reflect_inputs_defined (i : ChanCount) s :
  metrics_lockstep s → units_lockstep s →
  ∃ s', reflect_inputs i s = Some s' ∧ current_meters s' = i.
Proof.
  intros Hm Hu. unfold reflect_inputs.
  destruct (reflect_inputs_zeroes (n_total i)
              (n_total (current_meters s) - n_total i) s)
    as (s1 & H1 & _).
  rewrite H1. simpl.
  assert (same_shape s s1) as S1.
  { eapply for_range_shape; [|exact H1].
    intros j sa sb _ Hstep. cbv beta in Hstep. inv_ops; [shape|].
    apply same_shape_refl. }
  assert (units_lockstep s1) as Hu1
    by (by eapply same_shape_units_lockstep).
  destruct (reflect_inputs_resets (n_audio i)
              (n_audio (current_meters s1) - n_audio i) s1 Hu1)
    as (s2 & H2 & _).
  rewrite H2. simpl.
  assert (same_shape s1 s2) as S2.
  { eapply for_range_shape; [|exact H2].
    intros j sa sb _ Hstep. cbv beta in Hstep.
    case_decide; [injection Hstep as <-; apply same_shape_refl|].
    by eapply reset_units_shape. }
  assert (metrics_lockstep (set_current_meters i s2)) as Hm2.
  { pose proof (same_shape_metrics_lockstep _ _
                  (same_shape_trans _ _ _ S1 S2) Hm) as Hm'.
    by destruct s2. }
  rewrite reset_max_spec by exact Hm2. simpl.
  eexists. split; [reflexivity|]. done.
Qed.

(** One call within the vectors returns and keeps the vectors in
    lockstep and covering the layout. *)
Lemma call_within_defined c s :
  sized s → metrics_lockstep s → units_lockstep s → within_vectors c s →
  ∃ s', call c s = Some s'
    ∧ sized s' ∧ metrics_lockstep s' ∧ units_lockstep s'.
Proof.
  intros Hsz Hm Hu Hw.
  assert (∃ s', call c s = Some s' ∧ sized s') as (s' & Hs' & Hsz').
  { destruct c; simpl in *.
    - destruct (run_defined bufs nframes s Hsz) as [s' Hs'].
      exists s'. split; [done|]. by eapply run_sized.
    - rewrite reset_spec by done. eexists. split; [done|].
      unfold sized, units_cover in *. simpl.
      rewrite !length_fmap, length_replicate. lia.
    - rewrite reset_max_spec by done. eexists. split; [done|].
      unfold sized, units_cover in *. simpl. lia.
    - unfold configure_io. case_decide; [by eauto|].
      rewrite reset_max_channels_spec by (by destruct s). simpl.
      eexists. split; [done|]. unfold sized, units_cover. simpl.
      by rewrite !length_fmap, !length_resize, length_replicate.
    - destruct (reflect_inputs_defined i s Hm Hu) as (s' & Hs' & Hc).
      exists s'. split; [done|].
      pose proof (reflect_inputs_shape _ _ _ Hs') as Hsh.
      destruct Hu as (U1 & U2 & U3).
      unfold same_shape, sized, units_cover in *. rewrite Hc. lia.
    - rewrite reset_max_channels_spec by done.
      eexists. split; [done|]. unfold sized, units_cover. simpl.
      rewrite !length_fmap, !length_resize, length_replicate. lia.
    - destruct (meter_defined meter_falloff s) as [s' Hs'].
      exists s'. split; [done|]. by eapply meter_sized.
    - destruct (decide (t = _meter_type s)) as [->|Hne].
      + exists s. split; [|done]. unfold set_type. by rewrite decide_True.
      + rewrite set_type_spec by (done || apply Hsz).
        eexists. split; [done|]. destruct Hsz as [Hp Hc].
        unfold sized, units_cover in *. simpl.
        repeat split; try done;
          destruct (has_bits t _); rewrite ?length_reset_below; lia. }
  exists s'. split; [done|]. split; [done|].
  by eapply call_lockstep.
Qed.

(** X16.  From the constructor, a sequence of calls each of which stays
    within the vectors (a [reflect_inputs] for a layout the vectors
    cover, a [reset_max_channels] for vectors that cover the layout, and
    any other call) returns: no call of it indexes a vector out of range,
    pops an empty vector or fails an assertion.  In the state reached the
    vectors cover the layout and are in lockstep. *)
Theorem calls_within_vectors_return active0 cs :
  calls_within cs (PeakMeter_new active0 : PeakMeter) →
  ∃ s, calls cs (PeakMeter_new active0) = Some s
    ∧ sized s ∧ metrics_lockstep s ∧ units_lockstep s.
Proof.
  assert (∀ s0 : PeakMeter,
            sized s0 → metrics_lockstep s0 → units_lockstep s0 →
            calls_within cs s0 →
            ∃ s, calls cs s0 = Some s
              ∧ sized s ∧ metrics_lockstep s ∧ units_lockstep s) as Hgen.
  { induction cs as [|c cs IH]; intros s0 Hsz Hm Hu Hw; simpl in *.
    - by eauto.
    - destruct Hw as [Hc Hrest].
      destruct (call_within_defined c s0 Hsz Hm Hu Hc)
        as (s1 & H1 & Hsz1 & Hm1 & Hu1).
      rewrite H1 in *. simpl. by apply IH. }
  apply Hgen; unfold sized, units_cover, metrics_lockstep, units_lockstep,
    n_total; simpl; lia.
Qed.

(** *** Calls beyond the vectors *)

(** A loop that assigns the slots below [count] of a vector returns only
    if the vector has them. *)
Lemma slots_loop_in_bounds {U} (get : PeakMeter → list U)
  (body : nat → PeakMeter → option PeakMeter) count s s' :
  (∀ n sa sb, body n sa = Some sb →
     n < length (get sa) ∧ length (get sb) = length (get sa)) →
  for_range 0 count body s = Some s' → count ≤ length (get s).
Proof.
  intros Hbody Hloop. destruct count as [|c]; [lia|].
  destruct (for_range_ran (λ s1, length (get s1) = length (get s))
              body 0 (S c) c s s') as (s1 & s2 & H1 & H2);
    [lia|done| |done|].
  - intros n sa sb Hsa Hstep.
    destruct (Hbody _ _ _ Hstep) as [_ ->]. done.
  - destruct (Hbody _ _ _ H2) as [Hlt _]. lia.
Qed.

(** One phase of [set_type]: shape and layout are kept, and the phase
    returns only if the units it resets exist. *)
Lemma set_type_phase {U} (get : PeakMeter → list U)
  (body : nat → PeakMeter → option PeakMeter) (c : bool) s s' :
  (∀ n sa sb, body n sa = Some sb →
     n < length (get sa) ∧ same_shape sa sb
     ∧ current_meters sb = current_meters sa) →
  (∀ sa sb, same_shape sa sb → length (get sb) = length (get sa)) →
  when c (λ s, for_range 0 (n_audio (current_meters s)) body s) s = Some s' →
  same_shape s s' ∧ current_meters s' = current_meters s
  ∧ (c = true → n_audio (current_meters s) ≤ length (get s)).
Proof.
  intros Hbody Hget. unfold when. destruct c.
  - intros Hloop. split; [|split].
    + eapply for_range_shape; [|exact Hloop].
      intros n sa sb _ Hstep. by destruct (Hbody _ _ _ Hstep) as (_&?&_).
    + apply (for_range_other current_meters) in Hloop; [done|].
      intros n sa sb _ Hstep. by destruct (Hbody _ _ _ Hstep) as (_&_&?).
    + intros _. eapply (slots_loop_in_bounds get); [|exact Hloop].
      intros n sa sb Hstep. destruct (Hbody _ _ _ Hstep) as (?&?&_).
      split; [done|]. by apply Hget.
  - intros [= <-]. split; [apply same_shape_refl|]. split; [done|].
    discriminate.
Qed.

(** X17.  [set_type] resets the units below the audio count of the layout
    without comparing it with the size of the vectors (as
    [reflect_inputs] does): a call with a new type returns only if every
    family the new type selects has a unit for each audio channel of the
    layout, and otherwise it indexes a vector out of range. *)
Theorem set_type_returns_only_within_units t s :
  t ≠ _meter_type s →
  is_Some (set_type t s) ↔
    (has_bits t K_bits = true →
     n_audio (current_meters s) ≤ length (_kmeter s))
    ∧ (has_bits t IEC1_bits = true →
       n_audio (current_meters s) ≤ length (_iec1meter s))
    ∧ (has_bits t IEC2_bits = true →
       n_audio (current_meters s) ≤ length (_iec2meter s))
    ∧ (has_bits t VU_bits = true →
       n_audio (current_meters s) ≤ length (_vumeter s)).
Proof.
  intros Hne.
  assert (∀ n (s1 s2 : PeakMeter), kmeter_at n dsp_reset s1 = Some s2 →
            n < length (_kmeter s1) ∧ same_shape s1 s2
            ∧ current_meters s2 = current_meters s1) as Bk.
  { intros n s1 s2 Hstep. inv_ops.
    split; [by eapply lookup_lt_Some|split; [shape|done]]. }
  assert (∀ n (s1 s2 : PeakMeter), iec1meter_at n dsp_reset s1 = Some s2 →
            n < length (_iec1meter s1) ∧ same_shape s1 s2
            ∧ current_meters s2 = current_meters s1) as B1.
  { intros n s1 s2 Hstep. inv_ops.
    split; [by eapply lookup_lt_Some|split; [shape|done]]. }
  assert (∀ n (s1 s2 : PeakMeter), iec2meter_at n dsp_reset s1 = Some s2 →
            n < length (_iec2meter s1) ∧ same_shape s1 s2
            ∧ current_meters s2 = current_meters s1) as B2.
  { intros n s1 s2 Hstep. inv_ops.
    split; [by eapply lookup_lt_Some|split; [shape|done]]. }
  assert (∀ n (s1 s2 : PeakMeter), vumeter_at n dsp_reset s1 = Some s2 →
            n < length (_vumeter s1) ∧ same_shape s1 s2
            ∧ current_meters s2 = current_meters s1) as Bv.
  { intros n s1 s2 Hstep. inv_ops.
    split; [by eapply lookup_lt_Some|split; [shape|done]]. }
  split.
  - intros [s' E]. unfold set_type in E. rewrite decide_False in E by done.
    apply bind_Some in E as (sa & Ha & E).
    apply bind_Some in E as (sb & Hb & E).
    apply bind_Some in E as (sc & Hc & E).
    apply bind_Some in E as (sd & Hd & _).
    eapply (set_type_phase _kmeter) in Ha;
      [|exact Bk|by intros s1 s2 (_&_&_&_&?&_)].
    eapply (set_type_phase _iec1meter) in Hb;
      [|exact B1|by intros s1 s2 (_&_&_&_&_&?&_)].
    eapply (set_type_phase _iec2meter) in Hc;
      [|exact B2|by intros s1 s2 (_&_&_&_&_&_&?&_)].
    eapply (set_type_phase _vumeter) in Hd;
      [|exact Bv|by intros s1 s2 (_&_&_&_&_&_&_&?)].
    destruct Ha as (Sa & Ca & Ba), Hb as (Sb & Cb & Bb),
      Hc as (Sc & Cc & Bc), Hd as (Sd & Cd & Bd).
    simpl in *. unfold same_shape in *. simpl in *.
    repeat split; intros Hsel;
      [specialize (Ba Hsel)|specialize (Bb Hsel)|specialize (Bc Hsel)
      |specialize (Bd Hsel)]; rewrite ?Cc, ?Cb, ?Ca in *; lia.
  - intros (Hk & H1 & H2 & Hv).
    unfold set_type, when. rewrite decide_False by done.
    destruct (has_bits t K_bits); simpl;
      [rewrite reset_kmeter_spec by (simpl; auto); simpl|];
      (destruct (has_bits t IEC1_bits); simpl;
        [rewrite reset_iec1meter_spec by (simpl; auto); simpl|]);
      (destruct (has_bits t IEC2_bits); simpl;
        [rewrite reset_iec2meter_spec by (simpl; auto); simpl|]);
      (destruct (has_bits t VU_bits); simpl;
        [rewrite reset_vumeter_spec by (simpl; auto); simpl|]);
      by eexists.
Qed.

(** What one iteration of the audio loop of [run] needs to return. *)
Lemma run_audio_in_bounds bufs nframes m i s s' :
  run_audio bufs nframes m i s = Some s' →
  m + i < length (_peak_signal s)
  ∧ (has_bits (_meter_type s) K_bits = true → i < length (_kmeter s))
  ∧ (has_bits (_meter_type s) IEC1_bits = true →
     i < length (_iec1meter s))
  ∧ (has_bits (_meter_type s) IEC2_bits = true →
     i < length (_iec2meter s))
  ∧ (has_bits (_meter_type s) VU_bits = true → i < length (_vumeter s)).
Proof.
  unfold run_audio. intros Hstep. inv_ops;
    repeat match goal with
      | H : _ !! _ = Some _ |- _ => apply lookup_lt_Some in H
      end;
    repeat split; intros; (done || lia || congruence).
Qed.

Lemma run_audio_defined_when_selected bufs nframes m i s :
  i < length (audio_bufs bufs) → m + i < length (_peak_signal s) →
  (has_bits (_meter_type s) K_bits = true → i < length (_kmeter s)) →
  (has_bits (_meter_type s) IEC1_bits = true →
   i < length (_iec1meter s)) →
  (has_bits (_meter_type s) IEC2_bits = true →
   i < length (_iec2meter s)) →
  (has_bits (_meter_type s) VU_bits = true → i < length (_vumeter s)) →
  is_Some (run_audio bufs nframes m i s).
Proof.
  intros Hb Hp Hk H1 H2 Hv. unfold run_audio, vec_get, when.
  destruct (lookup_lt_is_Some_2 _ _ Hb) as [buf ->].
  destruct (lookup_lt_is_Some_2 _ _ Hp) as [old Hold]. simpl.
  destruct (silent buf); [|rewrite Hold; simpl];
    rewrite peak_signal_at_eq by done; simpl;
    (destruct (has_bits _ K_bits);
       [destruct (lookup_lt_is_Some_2 (_kmeter s) i) as [uk Huk];
          [by apply Hk|];
        erewrite kmeter_at_eq by (simpl; exact Huk)|]; simpl);
    (destruct (has_bits _ IEC1_bits);
       [destruct (lookup_lt_is_Some_2 (_iec1meter s) i) as [u1 Hu1];
          [by apply H1|];
        erewrite iec1meter_at_eq by (simpl; exact Hu1)|]; simpl);
    (destruct (has_bits _ IEC2_bits);
       [destruct (lookup_lt_is_Some_2 (_iec2meter s) i) as [u2 Hu2];
          [by apply H2|];
        erewrite iec2meter_at_eq by (simpl; exact Hu2)|]; simpl);
    (destruct (has_bits _ VU_bits);
       [destruct (lookup_lt_is_Some_2 (_vumeter s) i) as [uv Huv];
          [by apply Hv|];
        erewrite vumeter_at_eq by (simpl; exact Huv)|]; simpl);
    done.
Qed.

(** X18.  [run] on a running meter indexes the raw values of the channels
    it meters, and the units of the families the type selects, without
    comparing the counts with the sizes of the vectors: it returns exactly
    when the vector of raw values has a slot for every channel metered and
    every selected family has a unit for every audio channel metered. *)
Theorem run_returns_iff_within_vectors bufs nframes s :
  _active s || _pending_active s = true →
  let m := min (n_midi (current_meters s)) (length (midi_bufs bufs)) in
  let a := min (n_audio (current_meters s)) (length (audio_bufs bufs)) in
  is_Some (run bufs nframes s) ↔
    m + a ≤ length (_peak_signal s)
    ∧ (has_bits (_meter_type s) K_bits = true → a ≤ length (_kmeter s))
    ∧ (has_bits (_meter_type s) IEC1_bits = true →
       a ≤ length (_iec1meter s))
    ∧ (has_bits (_meter_type s) IEC2_bits = true →
       a ≤ length (_iec2meter s))
    ∧ (has_bits (_meter_type s) VU_bits = true →
       a ≤ length (_vumeter s)).
Proof.
  intros Hact m a.
  assert (negb (_active s) && negb (_pending_active s) = false) as Hact'
    by (destruct (_active s), (_pending_active s); done).
  unfold run. rewrite Hact'. fold m a. split.
  - intros [s' Hs'].
    apply bind_Some in Hs' as (s1 & H1 & Hs').
    apply bind_Some in Hs' as (s2 & H2 & _).
    assert (m ≤ length (_peak_signal s)) as Hm.
    { eapply (slots_loop_in_bounds _peak_signal); [|exact H1].
      intros n sa sb Hstep. unfold run_midi in Hstep. inv_ops.
      split; [by eapply lookup_lt_Some|by rewrite length_insert]. }
    assert (same_shape s s1 ∧ _meter_type s1 = _meter_type s) as [S1 T1].
    { split.
      - eapply for_range_shape; [|exact H1].
        intros; by eapply run_midi_shape.
      - apply (for_range_other _meter_type) in H1; [done|].
        intros n sa sb _ Hstep. unfold run_midi in Hstep. by inv_ops. }
    destruct a as [|a'] eqn:Ea.
    { split; [lia|]. repeat split; intros; lia. }
    destruct (for_range_ran
                (λ s2, same_shape s s2 ∧ _meter_type s2 = _meter_type s)
                (run_audio bufs nframes m) 0 (S a') a' s1 s2)
      as (sa & sb & [Sa Ta] & Hstep); [lia|done| |done|].
    { intros n sa sb [Sa Ta] Hstep. split.
      - eapply same_shape_trans; [done|]. by eapply run_audio_shape.
      - pose proof (run_audio_kept _ _ _ _ _ _ Hstep) as Hk.
        unfold run_kept in Hk. congruence. }
    destruct (run_audio_in_bounds _ _ _ _ _ _ Hstep)
      as (Bp & Bk & B1 & B2 & Bv).
    rewrite Ta in *. unfold same_shape in Sa.
    split; [lia|].
    repeat split; intros Hsel;
      [specialize (Bk Hsel)|specialize (B1 Hsel)|specialize (B2 Hsel)
      |specialize (Bv Hsel)]; lia.
  - intros (Hp & Hk & H1 & H2 & Hv).
    destruct (for_range_ind
                (λ _ st, same_shape s st ∧ _meter_type st = _meter_type s)
                (run_midi bufs) 0 m s) as (s1 & -> & Hs1).
    { split; [apply same_shape_refl|done]. }
    { intros i st Hi [Hsh Ht].
      destruct (run_midi_defined bufs i st) as [s' Hs'];
        [lia|destruct Hsh as (-> & _); lia|].
      exists s'. split; [done|]. split.
      - eapply same_shape_trans; [done|]. by eapply run_midi_shape.
      - pose proof (run_midi_kept _ _ _ _ Hs') as Hkept.
        unfold run_kept in Hkept. congruence. }
    simpl.
    destruct (for_range_ind
                (λ _ st, same_shape s st ∧ _meter_type st = _meter_type s)
                (run_audio bufs nframes m) 0 a s1) as (s2 & -> & Hs2).
    { done. }
    { intros i st Hi [Hsh Ht].
      destruct (run_audio_defined_when_selected bufs nframes m i st)
        as [s' Hs'];
        try (rewrite ?Ht; unfold same_shape in Hsh; lia);
        try (rewrite Ht; intros Hsel; unfold same_shape in Hsh;
             first [specialize (Hk Hsel)|specialize (H1 Hsel)
                   |specialize (H2 Hsel)|specialize (Hv Hsel)]; lia).
      exists s'. split; [done|]. split.
      - eapply same_shape_trans; [done|]. by eapply run_audio_shape.
      - pose proof (run_audio_kept _ _ _ _ _ _ Hs') as Hkept.
        unfold run_kept in Hkept. congruence. }
    simpl.
    destruct (for_range_ind (λ _ st, same_shape s st)
                (λ i, peak_signal_at i fzero) (m + a)
                (length (_peak_signal s2) - (m + a)) s2) as (s3 & -> & Hs3).
    { apply Hs2. }
    { intros i st Hi Hsh. destruct Hs2 as [Hs2 _].
      rewrite peak_signal_at_eq by (unfold same_shape in *; lia).
      eexists. split; [done|]. eapply same_shape_trans; [done|]. shape. }
    simpl. by eexists.
Qed.

(** *** A freshly configured meter, and a new one *)

(** X19.  After an accepted [configure_io] the query answers the
    baselines: for [MeterMaxSignal], [0] for a channel of the layout and
    minus infinity beyond it; for [MeterMaxPeak], minus infinity for every
    index; and for [MeterK20] and an audio channel of the layout, the
    level of a unit that has just been reset. *)
Theorem configured_meter_levels (i : ChanCount) n s :
  metrics_lockstep s → units_lockstep s →
  ∃ s', configure_io i i s = Some (Processor_configure_io i i, s')
    ∧ meter_level n MeterMaxSignal s'
      = Some (if decide (n < n_total i) then fzero else minus_infinity)
    ∧ meter_level n MeterMaxPeak s' = Some minus_infinity
    ∧ (n_midi i ≤ n < n_total i →
       ∃ u : Kmeterdsp, meter_level n MeterK20 s'
            = Some (accurate_coefficient_to_dB (dsp_read (dsp_reset u)))).
Proof.
  intros Hm Hu. unfold configure_io. rewrite decide_False by (by intros []).
  rewrite reset_max_channels_spec by (by destruct s). simpl.
  eexists. split; [reflexivity|].
  unfold meter_level. simpl. rewrite !length_replicate.
  split; [|split].
  - case_decide; [|done]. unfold vec_get. by rewrite lookup_replicate_2.
  - case_decide; [|done]. unfold vec_get. by rewrite lookup_replicate_2.
  - intros Hn. unfold unit_level, CHECKSIZE, vec_get. simpl.
    rewrite length_fmap, length_resize.
    rewrite !bool_decide_eq_true_2 by (unfold n_total in *; lia). simpl.
    rewrite list_lookup_fmap.
    destruct (lookup_lt_is_Some_2
                (resize (n_audio i) dsp_new (_kmeter s)) (n - n_midi i))
      as [u ->].
    { rewrite length_resize. unfold n_total in *. lia. }
    simpl. by exists u.
Qed.

(** X20.  The meter the constructor builds has no channel: [run] on it
    returns for any buffers and changes nothing but [_active], which
    becomes true; [reset], [reset_max] and [meter] change nothing; and
    the query answers minus infinity for every index, whether the type
    names a ballistics family or a maximum. *)
Theorem new_meter_is_empty active0 bufs nframes f n type :
  let new : PeakMeter := PeakMeter_new active0 in
  run bufs nframes new = Some (set_active true new)
  ∧ reset new = Some new
  ∧ reset_max new = Some new
  ∧ meter f new = Some new
  ∧ (type ≠ MeterPeak → meter_level n type new = Some minus_infinity).
Proof.
  intros new. split; [by destruct active0|].
  split; [done|]. split; [done|].
  split; [by destruct active0|].
  intros Hne. unfold meter_level, unit_level, CHECKSIZE. simpl.
  destruct (type =? MeterPeak)%Z eqn:Hp; [by apply Z.eqb_eq in Hp|].
  simpl. by repeat (destruct (_ || _)).
Qed.

End Properties.

(* ===================================================================== *)
(** ** The properties on concrete meters *)
(* ===================================================================== *)

#[local] Existing Instance sample_collaborators.


(** The call sequences that lead to the sample meters. *)
Lemma k20_vu_meter_reached :
  calls [CallConfigureIo (mkChanCount 0 1) (mkChanCount 0 1);
         CallSetType (Z.lor MeterK20 MeterVU);
         CallRun (audio_of [Num (1 # 2)]) 1] (PeakMeter_new false)
  = Some k20_vu_meter.
Proof. reflexivity. Qed.

Lemma k20_meter_reached :
  calls [CallConfigureIo (mkChanCount 0 1) (mkChanCount 0 1);
         CallSetType MeterK20;
         CallRun (audio_of [Num 1]) 1;
         CallMeter (Num 0);
         CallRun (audio_of [Num 1]) 1] (PeakMeter_new false)
  = Some k20_meter.
Proof. reflexivity. Qed.

Lemma reflected_meter_reached :
  calls [CallConfigureIo (mkChanCount 0 3) (mkChanCount 0 3);
         CallRun (audio_of [Num (1 # 2); Num (1 # 2); Num (1 # 2)]) 1;
         CallReflectInputs (mkChanCount 0 2);
         CallRun (audio_of [Num (1 # 2); Num (1 # 2)]) 1]
    (PeakMeter_new false)
  = Some reflected_meter.
Proof. reflexivity. Qed.

Lemma midi_audio_meter_reached :
  calls [CallConfigureIo (mkChanCount 1 1) (mkChanCount 1 1);
         CallRun (mkBufferSet [] []) 0] (PeakMeter_new false)
  = Some midi_audio_meter.
Proof. reflexivity. Qed.

(** C1, on the K-20 + VU meter: deselecting VU resets the K units. *)
Lemma set_type_witness :
  MeterK20 ≠ _meter_type k20_vu_meter ∧ units_cover k20_vu_meter
  ∧ ∃ s', set_type MeterK20 k20_vu_meter = Some s'
      ∧ _kmeter s' = [mkPeakHold fzero]
      ∧ _vumeter s' = [mkPeakHold (Num (1 # 2))].
Proof.
  assert (H1 : MeterK20 ≠ _meter_type k20_vu_meter) by discriminate.
  assert (H2 : units_cover k20_vu_meter)
    by (unfold units_cover; simpl; lia).
  split; [exact H1|]. split; [exact H2|].
  destruct (set_type_resets_families_of_new_mask MeterK20 k20_vu_meter H1 H2)
    as (s' & Hs & _ & Hk & _ & _ & Hv & _).
  exists s'. split; [exact Hs|].
  split; [rewrite Hk|rewrite Hv]; reflexivity.
Defined.

(** C1 as stated fails: the meter is reached with K-20 and VU selected and
    a K unit that holds [0.5]; selecting K-20 alone leaves the selection of
    the K family as it was, and yet the call resets the K unit. *)
Lemma set_type_resets_family_that_stays_selected :
  calls [CallConfigureIo (mkChanCount 0 1) (mkChanCount 0 1);
         CallSetType (Z.lor MeterK20 MeterVU);
         CallRun (audio_of [Num (1 # 2)]) 1] (PeakMeter_new false)
  = Some k20_vu_meter
  ∧ has_bits (_meter_type k20_vu_meter) K_bits = true
  ∧ has_bits MeterK20 K_bits = true
  ∧ MeterK20 ≠ _meter_type k20_vu_meter
  ∧ _kmeter k20_vu_meter = [mkPeakHold (Num (1 # 2))]
  ∧ _kmeter <$> set_type MeterK20 k20_vu_meter = Some [mkPeakHold fzero].
Proof. repeat split; try reflexivity. discriminate. Qed.


(** C3, on the K-20 meter: a steady full-scale signal decays by [0.12]. *)
Lemma meter_audio_visible_level_witness :
  (0 <= 0)%Q ∧ _active k20_meter = true ∧ metrics_lockstep k20_meter
  ∧ (min (length (_peak_signal k20_meter))
         (n_midi (current_meters k20_meter)) ≤ 0
     ∧ 0 < min (length (_peak_signal k20_meter))
               (n_total (current_meters k20_meter)))
  ∧ _peak_signal k20_meter !! 0 = Some (Num 1)
  ∧ fgt (Num 1) fzero = true
  ∧ _visible_peak_power k20_meter !! 0 = Some (Num 0)
  ∧ ∃ s' v, meter (Num 0) k20_meter = Some s'
      ∧ _visible_peak_power s' !! 0 = Some v
      ∧ v = fsub (Num 0) (Num (12 # 100))
      ∧ fle v (Num 0) = true.
Proof.
  assert (H0 : (0 <= 0)%Q) by apply Qle_refl.
  assert (H1 : _active k20_meter = true) by reflexivity.
  assert (H2 : metrics_lockstep k20_meter) by (repeat split).
  assert (H3 : min (length (_peak_signal k20_meter))
                   (n_midi (current_meters k20_meter)) ≤ 0
               ∧ 0 < min (length (_peak_signal k20_meter))
                         (n_total (current_meters k20_meter)))
    by (simpl; lia).
  assert (H4 : _peak_signal k20_meter !! 0 = Some (Num 1)) by reflexivity.
  assert (H5 : fgt (Num 1) fzero = true) by reflexivity.
  assert (H6 : _visible_peak_power k20_meter !! 0 = Some (Num 0))
    by reflexivity.
  repeat (split; [assumption|]).
  destruct (meter_audio_visible_level 0 0 (Num 1) (Num 0) k20_meter
              H0 H1 H2 H3 H4 H5 H6) as (s' & v & Hs & Hv & _ & Hif).
  exists s', v. split; [exact Hs|]. split; [exact Hv|].
  destruct Hif as [Hval Hle]. split; [exact Hval|]. exact (Hle eq_refl).
Defined.

(** C3 as stated fails: the K-20 meter is reached with a configured
    falloff rate of [0], shows 0 dB and holds a raw value of [1.0], whose
    level is [dB (1.0) = 0]; the next tick, still at the rate [0], sets the
    visible level to [-0.12], not to [dB (1.0)]. *)
Lemma meter_k20_decays_at_rate_zero :
  calls [CallConfigureIo (mkChanCount 0 1) (mkChanCount 0 1);
         CallSetType MeterK20;
         CallRun (audio_of [Num 1]) 1;
         CallMeter (Num 0);
         CallRun (audio_of [Num 1]) 1] (PeakMeter_new false)
  = Some k20_meter
  ∧ _peak_signal k20_meter !! 0 = Some (Num 1)
  ∧ _visible_peak_power k20_meter !! 0 = Some (Num 0)
  ∧ accurate_coefficient_to_dB (Num 1) = Num 0
  ∧ (_visible_peak_power <$> meter (Num 0) k20_meter)
    = Some [Num (- 12 # 100)]
  ∧ feq (Num (- 12 # 100)) (accurate_coefficient_to_dB (Num 1)) = false.
Proof. repeat split; reflexivity. Qed.

(** C4, on a meter in the middle of a resize. *)
Lemma meter_skips_witness :
  sizes_differ resizing_meter = true
  ∧ meter (Num 0) resizing_meter = Some resizing_meter.
Proof.
  assert (H1 : sizes_differ resizing_meter = true) by reflexivity.
  split; [exact H1|].
  exact (meter_skips_on_unequal_lengths (Num 0) resizing_meter H1).
Defined.

(** C4 as stated fails: the meter is reached with four per-channel vectors
    of the same length 3 and a layout of 2 channels in force (the lengths
    are equal, and not the layout's); the tick is no no-op: it clears the
    raw values of the two channels and raises their maxima. *)
Lemma meter_runs_on_equal_lengths_off_layout :
  calls [CallConfigureIo (mkChanCount 0 3) (mkChanCount 0 3);
         CallRun (audio_of [Num (1 # 2); Num (1 # 2); Num (1 # 2)]) 1;
         CallReflectInputs (mkChanCount 0 2);
         CallRun (audio_of [Num (1 # 2); Num (1 # 2)]) 1]
    (PeakMeter_new false)
  = Some reflected_meter
  ∧ length (_peak_signal reflected_meter) = 3
  ∧ length (_visible_peak_power reflected_meter) = 3
  ∧ length (_max_peak_signal reflected_meter) = 3
  ∧ length (_max_peak_power reflected_meter) = 3
  ∧ n_total (current_meters reflected_meter) = 2
  ∧ _peak_signal reflected_meter = [Num (1 # 2); Num (1 # 2); fzero]
  ∧ _max_peak_signal reflected_meter = [fzero; fzero; fzero]
  ∧ (_peak_signal <$> meter (Num 0) reflected_meter)
    = Some [fzero; fzero; fzero]
  ∧ (_max_peak_signal <$> meter (Num 0) reflected_meter)
    = Some [Num (1 # 2); Num (1 # 2); fzero].
Proof. repeat split; reflexivity. Qed.

(** C5, on the MIDI + audio meter resized to 2 MIDI and 3 audio
    channels. *)
Lemma reset_max_channels_witness :
  metrics_lockstep midi_audio_meter ∧ units_lockstep midi_audio_meter
  ∧ ∃ s', reset_max_channels (mkChanCount 2 3) midi_audio_meter = Some s'
      ∧ length (_peak_signal s') = 5
      ∧ length (_kmeter s') = 3
      ∧ _peak_signal s' = replicate 5 fzero
      ∧ _visible_peak_power s' !! 0 = Some fzero
      ∧ _visible_peak_power s' !! 1 = Some minus_infinity.
Proof.
  assert (H1 : metrics_lockstep midi_audio_meter) by (repeat split).
  assert (H2 : units_lockstep midi_audio_meter) by (repeat split).
  split; [exact H1|]. split; [exact H2|].
  destruct (reset_max_channels_resizes_and_resets 2 3 midi_audio_meter H1 H2)
    as (s' & Hs & Hl & _ & _ & _ & Hk & _ & _ & _ & Hp & _ & _ & Hv & _).
  exists s'. split; [exact Hs|]. split; [exact Hl|]. split; [exact Hk|].
  split; [exact Hp|].
  split; [apply (Hv 0)|apply (Hv 1)]; simpl; lia.
Defined.

(** C6, on the MIDI + audio meter: a fan-out is refused, a 1:1 layout is
    applied. *)
Lemma configure_io_witness :
  configure_io (mkChanCount 1 1) (mkChanCount 1 2) midi_audio_meter
  = Some (false, midi_audio_meter)
  ∧ ∃ s', configure_io (mkChanCount 2 1) (mkChanCount 2 1) midi_audio_meter
          = Some (true, s')
      ∧ current_meters s' = mkChanCount 2 1
      ∧ length (_peak_signal s') = 3.
Proof.
  split.
  - apply (configure_io_one_to_one (mkChanCount 1 1) (mkChanCount 1 2)
             midi_audio_meter). discriminate.
  - destruct (configure_io_one_to_one (mkChanCount 2 1) (mkChanCount 2 1)
                midi_audio_meter) as (_ & Hok & _).
    destruct (Hok eq_refl) as (s' & Hs & _ & Hc & Hl & _);
      [repeat split..|].
    exists s'. split; [exact Hs|]. split; [exact Hc|exact Hl].
Defined.

(** C7, on the MIDI + audio meter, with its MIDI channel supplied: the
    audible block raises the raw value of the audio channel, at the flat
    index 1, to the peak of the block. *)
Lemma run_audio_witness :
  _active midi_audio_meter || _pending_active midi_audio_meter = true
  ∧ sized midi_audio_meter
  ∧ n_midi (current_meters midi_audio_meter)
    ≤ length (midi_bufs note_and_sound)
  ∧ 0 < n_audio (current_meters midi_audio_meter)
  ∧ audio_bufs note_and_sound !! 0
    = Some (mkAudioBuffer false [Num (- (3 # 4)); Num (1 # 4)])
  ∧ ∃ s' old, run note_and_sound 2 midi_audio_meter = Some s'
      ∧ _peak_signal midi_audio_meter !! 1 = Some old
      ∧ _peak_signal s' !! 1 = Some (Num (3 # 4)).
Proof.
  assert (H1 : _active midi_audio_meter || _pending_active midi_audio_meter
               = true) by reflexivity.
  assert (H2 : sized midi_audio_meter)
    by (unfold sized, units_cover, n_total; simpl; lia).
  assert (H3 : n_midi (current_meters midi_audio_meter)
               ≤ length (midi_bufs note_and_sound)) by (simpl; lia).
  assert (H4 : 0 < n_audio (current_meters midi_audio_meter))
    by (simpl; lia).
  assert (H5 : audio_bufs note_and_sound !! 0
               = Some (mkAudioBuffer false [Num (- (3 # 4)); Num (1 # 4)]))
    by reflexivity.
  repeat (split; [assumption|]).
  destruct (run_audio_raw_signal note_and_sound 2 0 _ midi_audio_meter
              H1 H2 H3 H4 H5) as (s' & old & Hs & Hold & Hnew).
  exists s', old. split; [exact Hs|]. split; [exact Hold|].
  simpl in Hold. injection Hold as <-. exact Hnew.
Defined.

(** C7 as stated fails.  (1) The meter for one MIDI and two audio channels
    is reached by [configure_io]; a call that supplies no MIDI buffer, a
    silent block for the audio channel 0 and a block of peak [0.75] for the
    audio channel 1 meters the two blocks into the slots 0 and 1 and zeroes
    the slot 2: at the end of the call the raw value of the audio channel 0
    (flat index 1), whose block is silent, is [0.75], and that of the audio
    channel 1 (flat index 2) is [0], not the maximum of its prior value [0]
    and the peak [0.75].  (2) A meter that is being deactivated meters one
    last block and is then neither active nor pending active; the next
    call returns at once, and the raw value [0.75] of its audio channel
    outlives a silent block. *)
Lemma run_silent_block_keeps_raw_value :
  (calls [CallConfigureIo (mkChanCount 1 2) (mkChanCount 1 2)]
     (PeakMeter_new false) = Some midi_two_audio_meter
   ∧ (silent <$> audio_bufs silence_and_sound !! 0) = Some true
   ∧ (silent <$> audio_bufs silence_and_sound !! 1) = Some false
   ∧ (_peak_signal <$> run silence_and_sound 1 midi_two_audio_meter)
     = Some [fzero; Num (3 # 4); fzero]
   ∧ n_midi (current_meters midi_two_audio_meter) + 0 = 1
   ∧ n_midi (current_meters midi_two_audio_meter) + 1 = 2
   ∧ fmax fzero (peak_abs [Num (- (3 # 4))] 1) = Num (3 # 4))
  ∧ (run note_and_sound 2 stopping_meter = Some stopped_meter
     ∧ (silent <$> audio_bufs note_and_silence !! 0) = Some true
     ∧ run note_and_silence 1 stopped_meter = Some stopped_meter
     ∧ _peak_signal stopped_meter !! 1 = Some (Num (3 # 4))).
Proof. repeat split; reflexivity. Qed.



(** C10, on the meter whose live input count was reflected down. *)
Lemma units_in_lockstep_witness :
  calls [CallConfigureIo (mkChanCount 0 3) (mkChanCount 0 3);
         CallRun (audio_of [Num (1 # 2); Num (1 # 2); Num (1 # 2)]) 1;
         CallReflectInputs (mkChanCount 0 2);
         CallRun (audio_of [Num (1 # 2); Num (1 # 2)]) 1]
    (PeakMeter_new false)
  = Some reflected_meter
  ∧ units_lockstep reflected_meter
  ∧ is_Some (reset reflected_meter)
  ∧ (_kmeter <$> destroy reflected_meter) = Some [].
Proof.
  assert (H1 : calls
    [CallConfigureIo (mkChanCount 0 3) (mkChanCount 0 3);
     CallRun (audio_of [Num (1 # 2); Num (1 # 2); Num (1 # 2)]) 1;
     CallReflectInputs (mkChanCount 0 2);
     CallRun (audio_of [Num (1 # 2); Num (1 # 2)]) 1]
    (PeakMeter_new false) = Some reflected_meter) by reflexivity.
  split; [exact H1|].
  destruct (units_in_lockstep false _ reflected_meter H1)
    as (Hu & Hr & Hd & _).
  split; [exact Hu|]. split; [exact Hr|]. rewrite Hd. reflexivity.
Defined.

(** X1, on the meter whose live input count was reflected down: a call
    that supplies one audio block zeroes the slot 1. *)
Lemma run_zeroes_excess_peaks_witness :
  _active reflected_meter || _pending_active reflected_meter = true
  ∧ sized reflected_meter
  ∧ ∃ s', run (audio_of [Num 1]) 1 reflected_meter = Some s'
      ∧ _peak_signal s' !! 1 = Some fzero.
Proof.
  assert (H1 : _active reflected_meter || _pending_active reflected_meter
               = true) by reflexivity.
  assert (H2 : sized reflected_meter)
    by (unfold sized, units_cover, n_total; simpl; lia).
  split; [exact H1|]. split; [exact H2|].
  destruct (run_zeroes_excess_peaks (audio_of [Num 1]) 1 reflected_meter
              H1 H2) as (s' & Hs & Hz).
  exists s'. split; [exact Hs|]. apply Hz; simpl; lia.
Defined.

(** X2, on the K-20 + VU meter: the IEC1 units are not fed. *)
Lemma run_feeds_selected_units_witness :
  _active k20_vu_meter || _pending_active k20_vu_meter = true
  ∧ sized k20_vu_meter
  ∧ ∃ s', run (audio_of [Num 1]) 1 k20_vu_meter = Some s'
      ∧ _iec1meter s' = _iec1meter k20_vu_meter.
Proof.
  assert (H1 : _active k20_vu_meter || _pending_active k20_vu_meter = true)
    by reflexivity.
  assert (H2 : sized k20_vu_meter)
    by (unfold sized, units_cover, n_total; simpl; lia).
  split; [exact H1|]. split; [exact H2|].
  destruct (run_feeds_selected_units (audio_of [Num 1]) 1 k20_vu_meter
              H1 H2) as (s' & Hs & _ & Hi1 & _).
  exists s'. split; [exact Hs|]. exact Hi1.
Defined.

(** X3, on the meter that is being deactivated. *)
Lemma run_frame_witness :
  run note_and_sound 2 stopping_meter = Some stopped_meter
  ∧ run_kept stopped_meter = run_kept stopping_meter
  ∧ _active stopped_meter = _pending_active stopping_meter.
Proof.
  assert (H1 : run note_and_sound 2 stopping_meter = Some stopped_meter)
    by reflexivity.
  split; [exact H1|].
  destruct (run_frame note_and_sound 2 stopping_meter stopped_meter H1)
    as (Hk & _ & Ha).
  split; [exact Hk|exact Ha].
Defined.

(** X4, on the K-20 + VU meter. *)
Lemma reset_clears_witness :
  units_lockstep k20_vu_meter
  ∧ ∃ s', reset k20_vu_meter = Some s'
      ∧ _peak_signal s' = [fzero]
      ∧ _kmeter s' = [mkPeakHold fzero].
Proof.
  assert (H1 : units_lockstep k20_vu_meter)
    by (unfold units_lockstep; simpl; lia).
  split; [exact H1|].
  destruct (reset_clears_raw_values_and_units k20_vu_meter H1)
    as (s' & Hs & Hp & Hk & _).
  exists s'. split; [exact Hs|]. split; [exact Hp|exact Hk].
Defined.

(** X5, on the K-20 meter. *)
Lemma reset_max_baselines_witness :
  metrics_lockstep k20_meter
  ∧ ∃ s', reset_max k20_meter = Some s'
      ∧ _max_peak_signal s' = [fzero]
      ∧ _visible_peak_power s' !! 0 = Some minus_infinity.
Proof.
  assert (H1 : metrics_lockstep k20_meter)
    by (unfold metrics_lockstep; simpl; lia).
  split; [exact H1|].
  destruct (reset_max_baselines k20_meter H1)
    as (s' & Hs & Hms & _ & _ & Hv & _).
  exists s'. split; [exact Hs|]. split; [exact Hms|].
  apply (Hv 0). simpl. lia.
Defined.

(** X6, on the reflected meter: a further reflection down to one audio
    channel. *)
Lemma reflect_inputs_effect_witness :
  metrics_lockstep reflected_meter ∧ units_lockstep reflected_meter
  ∧ ∃ s', reflect_inputs (mkChanCount 0 1) reflected_meter = Some s'
      ∧ current_meters s' = mkChanCount 0 1
      ∧ length (_peak_signal s') = 3.
Proof.
  assert (H1 : metrics_lockstep reflected_meter)
    by (unfold metrics_lockstep; simpl; lia).
  assert (H2 : units_lockstep reflected_meter)
    by (unfold units_lockstep; simpl; lia).
  split; [exact H1|]. split; [exact H2|].
  destruct (reflect_inputs_effect (mkChanCount 0 1) reflected_meter H1 H2)
    as (s' & Hs & Hc & _ & Hsh & _).
  exists s'. split; [exact Hs|]. split; [exact Hc|].
  destruct Hsh as (Hl & _). exact Hl.
Defined.



(** X11, on a buffer with a note-on of velocity 64 and one other
    event. *)
Lemma midi_val_range_witness :
  Forall (λ ev, is_note_on ev = true → (buffer_2 ev <= 127)%Z)
    [mkMIDIEvent true 64; mkMIDIEvent false 0]
  ∧ fle (midi_val (mkMidiBuffer [mkMIDIEvent true 64; mkMIDIEvent false 0]
                     512)) fone = true.
Proof.
  assert (H1 : Forall (λ ev, is_note_on ev = true → (buffer_2 ev <= 127)%Z)
                 [mkMIDIEvent true 64; mkMIDIEvent false 0]).
  { repeat constructor; simpl; intros; try lia; discriminate. }
  split; [exact H1|].
  destruct (midi_val_range
              (mkMidiBuffer [mkMIDIEvent true 64; mkMIDIEvent false 0] 512)
              H1) as (_ & Hle & _).
  exact Hle.
Defined.

(** X12, on a new meter configured for one MIDI and one audio channel. *)
Lemma configure_io_ready_witness :
  metrics_lockstep (PeakMeter_new false : Meter)
  ∧ units_lockstep (PeakMeter_new false : Meter)
  ∧ ∃ s', configure_io (mkChanCount 1 1) (mkChanCount 1 1)
            (PeakMeter_new false : Meter) = Some (true, s')
      ∧ sized s'.
Proof.
  assert (H1 : metrics_lockstep (PeakMeter_new false : Meter))
    by (unfold metrics_lockstep; simpl; lia).
  assert (H2 : units_lockstep (PeakMeter_new false : Meter))
    by (unfold units_lockstep; simpl; lia).
  split; [exact H1|]. split; [exact H2|].
  destruct (configure_io_ready (mkChanCount 1 1) (PeakMeter_new false)
              H1 H2) as (s' & Hs & Hsz & _).
  exists s'. split; [exact Hs|exact Hsz].
Defined.

(** X14, on the K-20 meter. *)
Lemma reachable_metrics_in_lockstep_witness :
  calls [CallConfigureIo (mkChanCount 0 1) (mkChanCount 0 1);
         CallSetType MeterK20;
         CallRun (audio_of [Num 1]) 1;
         CallMeter (Num 0);
         CallRun (audio_of [Num 1]) 1] (PeakMeter_new false)
  = Some k20_meter
  ∧ sizes_differ k20_meter = false.
Proof.
  assert (H1 : calls [CallConfigureIo (mkChanCount 0 1) (mkChanCount 0 1);
                      CallSetType MeterK20;
                      CallRun (audio_of [Num 1]) 1;
                      CallMeter (Num 0);
                      CallRun (audio_of [Num 1]) 1] (PeakMeter_new false)
               = Some k20_meter) by reflexivity.
  split; [exact H1|].
  destruct (reachable_metrics_in_lockstep false _ k20_meter H1)
    as (_ & Hd & _).
  exact Hd.
Defined.

(** X15, on the K-20 + VU meter: K-20 selected twice. *)
Lemma set_type_twice_witness :
  set_type MeterK20 k20_vu_meter
  = Some (mkPeakMeter true true MeterK20 (mkChanCount 0 1)
            [Num (1 # 2)] [minus_infinity] [fzero] [minus_infinity]
            [mkPeakHold fzero] [mkPeakHold fzero] [mkPeakHold fzero]
            [mkPeakHold (Num (1 # 2))]
            [TypeChanged MeterK20; TypeChanged (Z.lor MeterK20 MeterVU)])
  ∧ ∃ s1, set_type MeterK20 k20_vu_meter = Some s1
      ∧ set_type MeterK20 s1 = Some s1.
Proof.
  assert (H1 : set_type MeterK20 k20_vu_meter
    = Some (mkPeakMeter true true MeterK20 (mkChanCount 0 1)
              [Num (1 # 2)] [minus_infinity] [fzero] [minus_infinity]
              [mkPeakHold fzero] [mkPeakHold fzero] [mkPeakHold fzero]
              [mkPeakHold (Num (1 # 2))]
              [TypeChanged MeterK20; TypeChanged (Z.lor MeterK20 MeterVU)]))
    by reflexivity.
  split; [exact H1|].
  destruct (set_type_twice MeterK20 k20_vu_meter _ H1) as (_ & _ & H2).
  eexists. split; [exact H1|exact H2].
Defined.

(** X16, on the calls that lead to the reflected meter. *)
Lemma calls_within_vectors_return_witness :
  calls_within
    [CallConfigureIo (mkChanCount 0 3) (mkChanCount 0 3);
     CallRun (audio_of [Num (1 # 2); Num (1 # 2); Num (1 # 2)]) 1;
     CallReflectInputs (mkChanCount 0 2);
     CallRun (audio_of [Num (1 # 2); Num (1 # 2)]) 1]
    (PeakMeter_new false : Meter)
  ∧ ∃ s, calls
           [CallConfigureIo (mkChanCount 0 3) (mkChanCount 0 3);
            CallRun (audio_of [Num (1 # 2); Num (1 # 2); Num (1 # 2)]) 1;
            CallReflectInputs (mkChanCount 0 2);
            CallRun (audio_of [Num (1 # 2); Num (1 # 2)]) 1]
           (PeakMeter_new false : Meter) = Some s
      ∧ sized s.
Proof.
  assert (H1 : calls_within
    [CallConfigureIo (mkChanCount 0 3) (mkChanCount 0 3);
     CallRun (audio_of [Num (1 # 2); Num (1 # 2); Num (1 # 2)]) 1;
     CallReflectInputs (mkChanCount 0 2);
     CallRun (audio_of [Num (1 # 2); Num (1 # 2)]) 1]
    (PeakMeter_new false : Meter)).
  { vm_compute. repeat split; repeat constructor. }
  split; [exact H1|].
  destruct (calls_within_vectors_return false _ H1) as (s & Hs & Hsz & _).
  exists s. split; [exact Hs|exact Hsz].
Defined.

(** X17, on the K-20 + VU meter. *)
Lemma set_type_returns_only_within_units_witness :
  MeterK20 ≠ _meter_type k20_vu_meter
  ∧ is_Some (set_type MeterK20 k20_vu_meter).
Proof.
  assert (H1 : MeterK20 ≠ _meter_type k20_vu_meter) by discriminate.
  split; [exact H1|].
  apply (proj2 (set_type_returns_only_within_units MeterK20 k20_vu_meter
                  H1)).
  repeat split; intros _; simpl; lia.
Defined.

(** X18, on the MIDI + audio meter. *)
Lemma run_returns_iff_within_vectors_witness :
  _active midi_audio_meter || _pending_active midi_audio_meter = true
  ∧ is_Some (run note_and_sound 2 midi_audio_meter).
Proof.
  assert (H1 : _active midi_audio_meter || _pending_active midi_audio_meter
               = true) by reflexivity.
  split; [exact H1|].
  apply (proj2 (run_returns_iff_within_vectors note_and_sound 2
                  midi_audio_meter H1)).
  repeat split; try intros _; simpl; lia.
Defined.

(** X19, on a new meter configured for one MIDI and one audio channel. *)
Lemma configured_meter_levels_witness :
  metrics_lockstep (PeakMeter_new false : Meter)
  ∧ units_lockstep (PeakMeter_new false : Meter)
  ∧ ∃ s', configure_io (mkChanCount 1 1) (mkChanCount 1 1)
            (PeakMeter_new false : Meter) = Some (true, s')
      ∧ meter_level 1 MeterMaxPeak s' = Some minus_infinity.
Proof.
  assert (H1 : metrics_lockstep (PeakMeter_new false : Meter))
    by (unfold metrics_lockstep; simpl; lia).
  assert (H2 : units_lockstep (PeakMeter_new false : Meter))
    by (unfold units_lockstep; simpl; lia).
  split; [exact H1|]. split; [exact H2|].
  destruct (configured_meter_levels (mkChanCount 1 1) 1
              (PeakMeter_new false) H1 H2) as (s' & Hs & _ & Hp & _).
  exists s'. split; [exact Hs|exact Hp].
Defined.
